(** * BurnMan: elastic moduli, averaging, seismic velocities and misfits

    A shallow embedding of [burnman/main.py]: the per-phase moduli
    evaluator [calculate_moduli], the bulk averager [average_moduli], the
    velocity deriver [compute_velocities], the attenuation corrector and
    the two misfit scorers, with the properties of the specification
    proved (or refuted) on them.

    Conventions of the embedding.

    - A Python call either returns a value or raises: [result A].
    - A float64 is an extended real: a finite value is an exact real
      number, next to the two infinities and NaN.  Rounding and overflow
      are not modelled, and [-0.0] is identified with [0.0].
    - A one-dimensional numpy array is a [list float]; reading and
      writing by index raise [IndexError] out of range, as numpy does.
    - In-place updates of arrays and of the rock are threaded as explicit
      state through the loops. *)

From Stdlib Require Import Reals Lra Lia.
From stdpp Require Import base option list.

(** ** Python exceptions and results *)

Inductive exn : Set :=
  | IndexError
  | AssertionError
  | ValueError
  | ZeroDivisionError
  | ForeignError (code : nat).

Inductive result (A : Type) : Type :=
  | Ok (a : A)
  | Raise (e : exn).

Arguments Ok {A} a.
Arguments Raise {A} e.

#[global] Instance result_ret : MRet result := fun A a => Ok a.

#[global] Instance result_bind : MBind result := fun A B f m =>
  match m with
  | Ok a => f a
  | Raise e => Raise e
  end.

Definition raises {A} (m : result A) : Prop := exists e, m = Raise e.

Definition returns {A} (m : result A) : Prop := exists a, m = Ok a.

(** [for i in range(n): s = body(i, s)], started at [start]. *)
Fixpoint for_loop {St : Type} (body : nat -> St -> result St)
    (start count : nat) (s : St) : result St :=
  match count with
  | O => Ok s
  | S count' => s' ← body start s; for_loop body (S start) count' s'
  end.

Definition for_range {St : Type} (n : nat) (body : nat -> St -> result St)
    (s : St) : result St :=
  for_loop body 0 n s.

(** ** float64 as extended reals *)

Inductive float : Type :=
  | Fin (r : R)
  | PInf
  | NInf
  | NaN.

Declare Scope float_scope.
Delimit Scope float_scope with fl.
Bind Scope float_scope with float.

Definition inf_of (positive : bool) : float :=
  if positive then PInf else NInf.

Definition positive_sign (r : R) : bool :=
  if Rlt_dec r 0 then false else true.

Definition fneg (x : float) : float :=
  match x with
  | Fin r => Fin (- r)
  | PInf => NInf
  | NInf => PInf
  | NaN => NaN
  end.

Definition fadd (x y : float) : float :=
  match x, y with
  | NaN, _ | _, NaN => NaN
  | Fin a, Fin b => Fin (a + b)
  | PInf, NInf | NInf, PInf => NaN
  | PInf, _ | _, PInf => PInf
  | NInf, _ | _, NInf => NInf
  end.

Definition fsub (x y : float) : float := fadd x (fneg y).

(** An infinity of sign [positive] times the finite [a]. *)
Definition scale_inf (positive : bool) (a : R) : float :=
  if Req_dec_T a 0 then NaN
  else inf_of (if positive_sign a then positive else negb positive).

Definition fmul (x y : float) : float :=
  match x, y with
  | NaN, _ | _, NaN => NaN
  | Fin a, Fin b => Fin (a * b)
  | Fin a, PInf | PInf, Fin a => scale_inf true a
  | Fin a, NInf | NInf, Fin a => scale_inf false a
  | PInf, PInf | NInf, NInf => PInf
  | PInf, NInf | NInf, PInf => NInf
  end.

(** numpy's true division: no exception, a zero divisor gives an
    infinity or NaN. *)
Definition fdiv (x y : float) : float :=
  match x, y with
  | NaN, _ | _, NaN => NaN
  | Fin a, Fin b =>
      if Req_dec_T b 0 then
        if Req_dec_T a 0 then NaN else inf_of (positive_sign a)
      else Fin (a / b)
  | Fin _, (PInf | NInf) => Fin 0
  | PInf, Fin b => inf_of (positive_sign b)
  | NInf, Fin b => inf_of (negb (positive_sign b))
  | (PInf | NInf), (PInf | NInf) => NaN
  end.

(** [np.sqrt]: NaN (and a warning, no exception) on a negative number. *)
Definition fsqrt (x : float) : float :=
  match x with
  | Fin a => if Rlt_dec a 0 then NaN else Fin (sqrt a)
  | PInf => PInf
  | NInf | NaN => NaN
  end.

(** [pow(x, 2.)] *)
Definition pow2 (x : float) : float :=
  match x with
  | Fin a => Fin (a * a)
  | PInf | NInf => PInf
  | NaN => NaN
  end.

(** [x > y]: false as soon as one side is NaN. *)
Definition fgt (x y : float) : bool :=
  match x, y with
  | NaN, _ | _, NaN => false
  | Fin a, Fin b => if Rlt_dec b a then true else false
  | PInf, (Fin _ | NInf) => true
  | Fin _, NInf => true
  | _, _ => false
  end.

(** The float of an [int] such as [len(err)]. *)
Definition of_nat (n : nat) : float := Fin (INR n).

(** Division of two Python floats (not numpy scalars), which raises on a
    zero divisor. *)
Definition py_truediv (x y : float) : result float :=
  match y with
  | Fin b => if Req_dec_T b 0 then Raise ZeroDivisionError else Ok (fdiv x y)
  | _ => Ok (fdiv x y)
  end.

Infix "+" := fadd : float_scope.
Infix "-" := fsub : float_scope.
Infix "*" := fmul : float_scope.
Infix "/" := fdiv : float_scope.

(** Operations that test a real number are unfolded by hand only. *)
Arguments fdiv : simpl never.
Arguments fsqrt : simpl never.
Arguments fgt : simpl never.
Arguments py_truediv : simpl never.

(** ** One-dimensional arrays *)

Abbreviation array := (list float).

(** [a[i]] *)
Definition getitem {A} (a : list A) (i : nat) : result A :=
  match a !! i with
  | Some x => Ok x
  | None => Raise IndexError
  end.

(** [a[-1]] *)
Definition getitem_last {A} (a : list A) : result A :=
  match last a with
  | Some x => Ok x
  | None => Raise IndexError
  end.

(** [a[i] = x] *)
Definition setitem {A} (a : list A) (i : nat) (x : A) : result (list A) :=
  if decide (i < length a) then Ok (<[i:=x]> a) else Raise IndexError.

(** [np.ndarray(n)] allocates without initialising: every cell holds
    whatever was in memory, [garbage] here, until it is assigned. *)
Definition np_ndarray (garbage : float) (n : nat) : array :=
  replicate n garbage.

Definition np_zeros (n : nat) : array := replicate n (Fin 0).

(** An elementwise binary operation with numpy's broadcasting rule for
    one dimension: equal lengths, or one side of length one. *)
Definition np_binop (op : float -> float -> float) (a b : array)
    : result array :=
  if decide (length a = length b) then Ok (zip_with op a b)
  else match a, b with
       | [x], _ => Ok (map (op x) b)
       | _, [y] => Ok (map (fun x => op x y) a)
       | _, _ => Raise ValueError
       end.

(** The builtin [sum]: a left fold from [0]. *)
Definition py_sum (a : array) : float := foldl fadd (Fin 0) a.

(** [np.sum] *)
Definition np_sum (a : array) : float := foldl fadd (Fin 0) a.

(** [np.mean] *)
Definition np_mean (a : array) : float := (np_sum a / of_nat (length a))%fl.

(** [np.diff(x)] is [x[1:] - x[:-1]]. *)
Definition np_diff (x : array) : array :=
  zip_with fsub (tail x) (removelast x).

(** [scipy.integrate.trapz(y, x)], numpy's [trapz]:
    [(d * (y[1:] + y[:-1]) / 2.0).sum()] with [d = diff(x)]. *)
Definition trapz (y x : array) : result float :=
  let d := np_diff x in
  p ← np_binop fmul d (zip_with fadd (tail y) (removelast y));
  Ok (np_sum (map (fun t => (t / Fin 2)%fl) p)).

(** ** The data model *)

(** [class elastic_properties]: five arrays aligned by evaluation point. *)
Record elastic_properties : Type := mk_elastic_properties {
  V : array;
  rho : array;
  K : array;
  G : array;
  fraction : array
}.

(** The collaborators of [main.py], which it only calls. *)

(** A mineral with its equation of state, read at the current state. *)
Class Mineral (M : Type) : Type := {
  molar_volume : M -> result float;
  molar_mass : M -> result float;
  adiabatic_bulk_modulus : M -> result float;
  shear_modulus : M -> result float
}.

Module Phase.
Record phase (M : Type) : Type := mk { fraction : float; mineral : M }.
Arguments mk {M} _ _.
Arguments fraction {M} _.
Arguments mineral {M} _.
End Phase.

Record composite (M : Type) : Type := mk_composite {
  phases : list (Phase.phase M)
}.

Arguments mk_composite {M} _.
Arguments phases {M} _.

(** [rock.set_state(pressure, temperature)] updates every phase. *)
Class Composite (M : Type) : Type := {
  set_state : composite M -> float -> float -> result (composite M)
}.

(** The interface of [averaging_schemes]. *)
Record averaging_scheme : Type := mk_averaging_scheme {
  average_bulk_moduli : array -> array -> array -> result float;
  average_shear_moduli : array -> array -> array -> result float;
  average_density : array -> array -> result float
}.

(** [seismic.attenuation_correction(v_p, v_s, v_phi, Qs, Qphi)] *)
Definition attenuation_model : Type :=
  float -> float -> float -> float -> float -> result (float * float * float).

(** ** The functions of [main.py] *)

Section Main.

(** The content of freshly allocated, unassigned array cells. *)
Variable garbage : float.

(** [m = elastic_properties(); m.set_size(size)]: the constructor leaves
    the five fields unset and [set_size] allocates all of them. *)
Definition set_size (size : nat) : elastic_properties :=
  {| V := np_ndarray garbage size;
     rho := np_ndarray garbage size;
     K := np_ndarray garbage size;
     G := np_ndarray garbage size;
     fraction := np_ndarray garbage size |}.

Section Calculate.

Context {M : Type} `{Mineral M} `{Composite M}.

(** The body of the loop over [midx]: phase [midx] of the rock is read
    and row [idx] of its record is assigned. *)
Definition calculate_phase (rock : composite M) (idx midx : nat)
    (moduli : list elastic_properties) : result (list elastic_properties) :=
  m ← getitem moduli midx;
  ph ← getitem (phases rock) midx;
  v ← molar_volume (Phase.mineral ph);
  m_V ← setitem (V m) idx (Phase.fraction ph * v)%fl;
  k ← adiabatic_bulk_modulus (Phase.mineral ph);
  m_K ← setitem (K m) idx k;
  g ← shear_modulus (Phase.mineral ph);
  m_G ← setitem (G m) idx g;
  mass ← molar_mass (Phase.mineral ph);
  v' ← molar_volume (Phase.mineral ph);
  r ← py_truediv mass v';
  m_rho ← setitem (rho m) idx r;
  m_fraction ← setitem (fraction m) idx (Phase.fraction ph);
  Ok (<[midx := {| V := m_V; rho := m_rho; K := m_K; G := m_G;
                  fraction := m_fraction |}]> moduli).

(** The body of the loop over [idx]; the state is the rock and the
    records being filled. *)
Definition calculate_point (pressures temperatures : array) (idx : nat)
    (st : composite M * list elastic_properties)
    : result (composite M * list elastic_properties) :=
  let '(rock, moduli) := st in
  p ← getitem pressures idx;
  t ← getitem temperatures idx;
  rock' ← set_state rock p t;
  moduli' ← for_range (length moduli) (calculate_phase rock' idx) moduli;
  Ok (rock', moduli').

(** [calculate_moduli(rock, pressures, temperatures)]: the rock as the
    call leaves it, and the list the call returns. *)
Definition calculate_moduli (rock : composite M)
    (pressures temperatures : array)
    : result (composite M * list elastic_properties) :=
  let moduli := map (fun _ => set_size (length pressures)) (phases rock) in
  for_range (length pressures) (calculate_point pressures temperatures)
    (rock, moduli).

End Calculate.

(** [[field(m)[idx] for m in moduli_list]] *)
Definition column (field : elastic_properties -> array)
    (moduli_list : list elastic_properties) (idx : nat) : result array :=
  mapM (fun m => getitem (field m) idx) moduli_list.

(** [V_mol = np.array(V_ph) * np.array(fractions)]; the two lists come
    from the same comprehension and have the same length. *)
Definition molar_volumes (V_ph fractions : array) : array :=
  zip_with fmul V_ph fractions.

(** [V_frac = V_mol / sum(V_mol)] *)
Definition volume_fractions (V_mol : array) : array :=
  map (fun v => (v / py_sum V_mol)%fl) V_mol.

(** The body of the loop of [average_moduli]; [res] is the source's
    [result]. *)
Definition average_point (moduli_list : list elastic_properties)
    (averaging_scheme : averaging_scheme) (idx : nat)
    (res : elastic_properties) : result elastic_properties :=
  fractions ← column fraction moduli_list idx;
  V_ph ← column V moduli_list idx;
  let V_mol := molar_volumes V_ph fractions in
  let V_frac := volume_fractions V_mol in
  K_ph ← column K moduli_list idx;
  G_ph ← column G moduli_list idx;
  rho_ph ← column rho moduli_list idx;
  r_V ← setitem (V res) idx (py_sum V_mol);
  k ← average_bulk_moduli averaging_scheme V_frac K_ph G_ph;
  r_K ← setitem (K res) idx k;
  g ← average_shear_moduli averaging_scheme V_frac K_ph G_ph;
  r_G ← setitem (G res) idx g;
  d ← average_density averaging_scheme V_frac rho_ph;
  r_rho ← setitem (rho res) idx d;
  r_fraction ← setitem (fraction res) idx (Fin 1);
  Ok {| V := r_V; rho := r_rho; K := r_K; G := r_G;
        fraction := r_fraction |}.

(** [average_moduli(moduli_list, averaging_scheme)] *)
Definition average_moduli (moduli_list : list elastic_properties)
    (averaging_scheme : averaging_scheme) : result elastic_properties :=
  m0 ← getitem moduli_list 0;
  let n_pressures := length (V m0) in
  for_range n_pressures (average_point moduli_list averaging_scheme)
    (set_size n_pressures).

(** The body of the loop of [compute_velocities]; the state is
    [(mat_vs, mat_vp, mat_vphi)]. *)
Definition velocity_point (moduli : elastic_properties) (i : nat)
    (st : array * array * array) : result (array * array * array) :=
  let '(mat_vs, mat_vp, mat_vphi) := st in
  g ← getitem (G moduli) i;
  r ← getitem (rho moduli) i;
  mat_vs ← setitem mat_vs i (fsqrt (g / r));
  k ← getitem (K moduli) i;
  g ← getitem (G moduli) i;
  r ← getitem (rho moduli) i;
  mat_vp ← setitem mat_vp i (fsqrt ((k + Fin 4 / Fin 3 * g) / r));
  k ← getitem (K moduli) i;
  r ← getitem (rho moduli) i;
  mat_vphi ← setitem mat_vphi i (fsqrt (k / r));
  Ok (mat_vs, mat_vp, mat_vphi).

(** [compute_velocities(moduli)] returns [mat_vp, mat_vs, mat_vphi]. *)
Definition compute_velocities (moduli : elastic_properties)
    : result (array * array * array) :=
  let n := length (V moduli) in
  '(mat_vs, mat_vp, mat_vphi) ←
    for_range n (velocity_point moduli)
      (np_ndarray garbage n, np_ndarray garbage n, np_ndarray garbage n);
  Ok (mat_vp, mat_vs, mat_vphi).

(** [velocities_from_rock(rock, pressures, temperatures, averaging_scheme)]
    returns [moduli.rho, mat_vp, mat_vs, mat_vphi, moduli.K, moduli.G]. *)
Definition velocities_from_rock {M : Type} `{Mineral M} `{Composite M}
    (rock : composite M) (pressures temperatures : array)
    (averaging_scheme : averaging_scheme)
    : result (array * array * array * array * array * array) :=
  '(_, moduli_list) ← calculate_moduli rock pressures temperatures;
  moduli ← average_moduli moduli_list averaging_scheme;
  '(mat_vp, mat_vs, mat_vphi) ← compute_velocities moduli;
  Ok (rho moduli, mat_vp, mat_vs, mat_vphi, K moduli, G moduli).

(** The body of the loop of [apply_attenuation_correction]; the state is
    [(ret_v_p, ret_v_s, ret_v_phi)]. *)
Definition attenuation_point (attenuation_correction : attenuation_model)
    (v_p v_s v_phi : array) (Qs Qphi : float) (i : nat)
    (st : array * array * array) : result (array * array * array) :=
  let '(ret_v_p, ret_v_s, ret_v_phi) := st in
  p ← getitem v_p i;
  s ← getitem v_s i;
  phi ← getitem v_phi i;
  '(p', s', phi') ← attenuation_correction p s phi Qs Qphi;
  ret_v_p ← setitem ret_v_p i p';
  ret_v_s ← setitem ret_v_s i s';
  ret_v_phi ← setitem ret_v_phi i phi';
  Ok (ret_v_p, ret_v_s, ret_v_phi).

(** [apply_attenuation_correction(v_p, v_s, v_phi, Qs, Qphi)] *)
Definition apply_attenuation_correction
    (attenuation_correction : attenuation_model)
    (v_p v_s v_phi : array) (Qs Qphi : float)
    : result (array * array * array) :=
  let length := length v_p in
  for_range length
    (attenuation_point attenuation_correction v_p v_s v_phi Qs Qphi)
    (np_zeros length, np_zeros length, np_zeros length).

(** [l2(x, funca, funcb)] *)
Definition l2 (x funca funcb : array) : result float :=
  diff ← np_binop fsub funca funcb;
  diff ← np_binop fmul diff diff;
  x_last ← getitem_last x;
  x_0 ← getitem x 0;
  let length := (x_last - x_0)%fl in
  if fgt length (Fin 0) then
    t ← trapz diff x;
    Ok (t / length)%fl
  else Raise AssertionError.

(** The body of the loop of [chi_factor]. *)
Definition chi_point (calc obs : array) (i : nat) (err : array)
    : result array :=
  c ← getitem calc i;
  o ← getitem obs i;
  setitem err i (pow2 ((c - o) / (Fin 0.01 * np_mean obs))).

(** [chi_factor(calc, obs)]; [np.empty_like(calc)] is an unassigned
    array of the length of [calc]. *)
Definition chi_factor (calc obs : array) : result float :=
  err ← for_range (length calc) (chi_point calc obs)
          (np_ndarray garbage (length calc));
  Ok (np_sum err / of_nat (length err))%fl.

(** [compare_l2]: the sum [err_tot] is computed and dropped. *)
Definition compare_l2 (depth mat_vs mat_vphi mat_rho
    seis_vs seis_vphi seis_rho : array) : result (float * float * float) :=
  rho_err_tot ← l2 depth mat_rho seis_rho;
  vphi_err_tot ← l2 depth mat_vphi seis_vphi;
  vs_err_tot ← l2 depth mat_vs seis_vs;
  let err_tot := (rho_err_tot + vphi_err_tot + vs_err_tot)%fl in
  Ok (rho_err_tot, vphi_err_tot, vs_err_tot).

(** [compare_chifactor]: the sum [err_tot] is computed and dropped. *)
Definition compare_chifactor (mat_vs mat_vphi mat_rho
    seis_vs seis_vphi seis_rho : array) : result (float * float * float) :=
  rho_err_tot ← chi_factor mat_rho seis_rho;
  vphi_err_tot ← chi_factor mat_vphi seis_vphi;
  vs_err_tot ← chi_factor mat_vs seis_vs;
  let err_tot := (rho_err_tot + vphi_err_tot + vs_err_tot)%fl in
  Ok (rho_err_tot, vphi_err_tot, vs_err_tot).

End Main.

(** ** Notions the properties are stated with *)

(** All five arrays of a record have length [n]. *)
Definition sized (n : nat) (m : elastic_properties) : Prop :=
  length (V m) = n /\ length (rho m) = n /\ length (K m) = n /\
  length (G m) = n /\ length (fraction m) = n.

(** The values of one field at evaluation point [i], phase by phase. *)
Definition at_point (field : elastic_properties -> array)
    (moduli_list : list elastic_properties) (i : nat) : array :=
  omap (fun m => field m !! i) moduli_list.

(** The scheme returns the three bulk values [k], [g], [d] when called
    on the volume fractions [V_frac] of evaluation point [i]. *)
Definition scheme_gives (scheme : averaging_scheme)
    (moduli_list : list elastic_properties) (i : nat) (V_frac : array)
    (k g d : float) : Prop :=
  average_bulk_moduli scheme V_frac
    (at_point K moduli_list i) (at_point G moduli_list i) = Ok k /\
  average_shear_moduli scheme V_frac
    (at_point K moduli_list i) (at_point G moduli_list i) = Ok g /\
  average_density scheme V_frac (at_point rho moduli_list i) = Ok d.

(** A finite, strictly positive number. *)
Definition positive (x : float) : Prop :=
  match x with Fin r => (0 < r)%R | _ => False end.

(** A finite, non-negative number. *)
Definition nonneg (x : float) : Prop :=
  match x with Fin r => (0 <= r)%R | _ => False end.

(** ** Worked inputs *)

(** Modelled from the spec: [averaging_schemes.voigt] is not under src/.
    The Voigt scheme is the weighted arithmetic mean of the per-phase
    values, the weights being the volume fractions. *)
Definition weighted_mean (fractions X : array) : float :=
  py_sum (zip_with fmul fractions X).

(** Modelled from the spec: the three functions of the Voigt scheme, each
    the weighted arithmetic mean. *)
Definition voigt : averaging_scheme :=
  {| average_bulk_moduli := fun V_frac K_ph G_ph => Ok (weighted_mean V_frac K_ph);
     average_shear_moduli := fun V_frac K_ph G_ph => Ok (weighted_mean V_frac G_ph);
     average_density := fun V_frac rho_ph => Ok (weighted_mean V_frac rho_ph) |}.

(** What a mineral reports at the current state. *)
Definition reports {M} `{Mineral M} (m : M) (volume mass k g : R) : Prop :=
  molar_volume m = Ok (Fin volume) /\ molar_mass m = Ok (Fin mass) /\
  adiabatic_bulk_modulus m = Ok (Fin k) /\ shear_modulus m = Ok (Fin g).

(** A mineral with a frozen equation of state: what it reports does not
    depend on pressure and temperature. *)
Record frozen_mineral : Type := mk_frozen {
  frozen_volume : R;
  frozen_mass : R;
  frozen_K : R;
  frozen_G : R
}.

#[global] Instance frozen_mineral_eos : Mineral frozen_mineral :=
  {| molar_volume := fun m => Ok (Fin (frozen_volume m));
     molar_mass := fun m => Ok (Fin (frozen_mass m));
     adiabatic_bulk_modulus := fun m => Ok (Fin (frozen_K m));
     shear_modulus := fun m => Ok (Fin (frozen_G m)) |}.

#[global] Instance frozen_composite : Composite frozen_mineral :=
  {| set_state := fun rock pressure temperature => Ok rock |}.

(** Two phases in equal molar fractions, with molar volumes
    [1e-5] and [2e-5], [K = 200e9, 100e9], [G = 100e9, 50e9] and
    densities [4000] and [3000]. *)
Definition two_phase_rock : composite frozen_mineral :=
  mk_composite
    [Phase.mk (Fin 0.5) (mk_frozen 1e-5 (4000 * 1e-5) 200e9 100e9);
     Phase.mk (Fin 0.5) (mk_frozen 2e-5 (3000 * 2e-5) 100e9 50e9)].

(** A rock without phases. *)
Definition empty_rock : composite frozen_mineral := mk_composite [].

(** A record with a negative shear modulus at its only index. *)
Definition unstable_record : elastic_properties :=
  {| V := [Fin 1]; rho := [Fin 1]; K := [Fin 4]; G := [Fin (-1)];
     fraction := [Fin 1] |}.

(** The per-phase records of [two_phase_rock] at one evaluation point. *)
Definition two_phase_moduli : list elastic_properties :=
  [ {| V := [Fin (0.5 * 1e-5)]; rho := [Fin (4000 * 1e-5 / 1e-5)];
       K := [Fin 200e9]; G := [Fin 100e9]; fraction := [Fin 0.5] |};
    {| V := [Fin (0.5 * 2e-5)]; rho := [Fin (3000 * 2e-5 / 2e-5)];
       K := [Fin 100e9]; G := [Fin 50e9]; fraction := [Fin 0.5] |} ].

(** A bulk record with physical values at two evaluation points. *)
Definition physical_record : elastic_properties :=
  {| V := [Fin 1e-5; Fin 1e-5]; rho := [Fin 4000; Fin 5000];
     K := [Fin 200e9; Fin 0]; G := [Fin 100e9; Fin 0];
     fraction := [Fin 1; Fin 1] |}.

(** An attenuation model that leaves the velocities as they are. *)
Definition no_attenuation : attenuation_model :=
  fun v_p v_s v_phi Qs Qphi => Ok (v_p, v_s, v_phi).

(** ** The misfits over the real numbers

    What the specification says the two scorers compute, written on
    profiles of real numbers; the functions of the source are compared
    with these. *)

Definition Rsum (l : list R) : R := foldr Rplus 0%R l.

Definition Rmean (l : list R) : R := (Rsum l / INR (length l))%R.

(** The squared pointwise difference of two profiles. *)
Definition squared_difference (a b : list R) : list R :=
  zip_with (fun u v => ((u - v) * (u - v))%R) a b.

(** The trapezoidal rule for the samples [y] on the axis [x]. *)
Fixpoint trapezoid (x y : list R) : R :=
  match x, y with
  | x0 :: x', y0 :: y' =>
      match x', y' with
      | x1 :: _, y1 :: _ =>
          ((x1 - x0) * (y1 + y0) / 2 + trapezoid x' y')%R
      | _, _ => 0%R
      end
  | _, _ => 0%R
  end.

(** [depth[-1] - depth[0]] *)
Definition depth_span (depth : list R) : R :=
  (default 0 (last depth) - default 0 (head depth))%R.

Definition l2_misfit (depth calc obs : list R) : R :=
  (trapezoid depth (squared_difference calc obs) / depth_span depth)%R.

(** The mean over the points of [((calc - obs) / (0.01 * mean(obs)))^2]. *)
Definition chi_misfit (calc obs : list R) : R :=
  (Rsum (zip_with (fun c o => ((c - o) / (0.01 * Rmean obs)) ^ 2) calc obs)
   / INR (length calc))%R.

(** A depth axis and a profile, and a profile of zeros. *)
Definition depths : list R := [0; 1000; 3000]%R.

Definition profile : list R := [4000; 4400; 5000]%R.

Definition observed : list R := [4100; 4300; 5100]%R.

Definition zero_profile : array := [Fin 0; Fin 0].

(** ** Notions for the further properties *)

(** A depth axis that never decreases. *)
Fixpoint nondecreasing (x : list R) : Prop :=
  match x with
  | x0 :: x' =>
      match x' with
      | x1 :: _ => (x0 <= x1)%R /\ nondecreasing x'
      | [] => True
      end
  | [] => True
  end.

(** The rock after the first [n] calls
    [rock.set_state(pressures[idx], temperatures[idx])]. *)
Definition set_states {M} `{Composite M} (rock : composite M)
    (pressures temperatures : array) (n : nat) : result (composite M) :=
  for_range n
    (fun idx r =>
       p ← getitem pressures idx;
       t ← getitem temperatures idx;
       set_state r p t)
    rock.

(** What [calculate_moduli] stores for one phase at one evaluation point,
    read from the phase at the current state. *)
Definition phase_row {M} `{Mineral M} (ph : Phase.phase M)
    (v k g r f : float) : Prop :=
  exists volume mass,
    molar_volume (Phase.mineral ph) = Ok volume /\
    molar_mass (Phase.mineral ph) = Ok mass /\
    adiabatic_bulk_modulus (Phase.mineral ph) = Ok k /\
    shear_modulus (Phase.mineral ph) = Ok g /\
    py_truediv mass volume = Ok r /\
    v = (Phase.fraction ph * volume)%fl /\
    f = Phase.fraction ph.

(** A record cut down to its first [n] evaluation points. *)
Definition truncate (n : nat) (m : elastic_properties) : elastic_properties :=
  {| V := take n (V m); rho := take n (rho m); K := take n (K m);
     G := take n (G m); fraction := take n (fraction m) |}.

(** Every array of the record has at least [n] entries. *)
Definition covers (n : nat) (m : elastic_properties) : Prop :=
  n <= length (V m) /\ n <= length (rho m) /\ n <= length (K m) /\
  n <= length (G m) /\ n <= length (fraction m).

(** The three velocity arrays written as elementwise maps over the first
    [len(moduli.V)] entries of [K], [G] and [rho], in the order
    [(mat_vp, mat_vs, mat_vphi)] of the returned tuple. *)
Definition velocity_arrays (moduli : elastic_properties)
    : array * array * array :=
  let n := length (V moduli) in
  let k := take n (K moduli) in
  let g := take n (G moduli) in
  let r := take n (rho moduli) in
  (zip_with (fun kg r => fsqrt ((kg.1 + Fin 4 / Fin 3 * kg.2) / r)%fl)
     (zip k g) r,
   zip_with (fun g r => fsqrt (g / r)%fl) g r,
   zip_with (fun k r => fsqrt (k / r)%fl) k r).

(** A record whose [K] is shorter than its other arrays. *)
Definition short_K_record : elastic_properties :=
  {| V := [Fin 1; Fin 1]; rho := [Fin 4000; Fin 5000]; K := [Fin 200e9];
     G := [Fin 100e9; Fin 0]; fraction := [Fin 1; Fin 1] |}.

(** The three functions of the scheme return on every input. *)
Definition scheme_returns (scheme : averaging_scheme) : Prop :=
  (forall V_frac K_ph G_ph,
     returns (average_bulk_moduli scheme V_frac K_ph G_ph)) /\
  (forall V_frac K_ph G_ph,
     returns (average_shear_moduli scheme V_frac K_ph G_ph)) /\
  (forall V_frac rho_ph, returns (average_density scheme V_frac rho_ph)).

(** What one iteration of [average_moduli] computes before it writes:
    [(sum(V_mol), K, G, rho)] of evaluation point [idx]. *)
Definition average_row (moduli_list : list elastic_properties)
    (averaging_scheme : averaging_scheme) (idx : nat)
    : result (float * float * float * float) :=
  fractions ← column fraction moduli_list idx;
  V_ph ← column V moduli_list idx;
  let V_mol := molar_volumes V_ph fractions in
  let V_frac := volume_fractions V_mol in
  K_ph ← column K moduli_list idx;
  G_ph ← column G moduli_list idx;
  rho_ph ← column rho moduli_list idx;
  k ← average_bulk_moduli averaging_scheme V_frac K_ph G_ph;
  g ← average_shear_moduli averaging_scheme V_frac K_ph G_ph;
  d ← average_density averaging_scheme V_frac rho_ph;
  Ok (py_sum V_mol, k, g, d).

(** Row [idx] of the bulk record assigned. *)
Definition write_row (res : elastic_properties) (idx : nat)
    (row : float * float * float * float) : elastic_properties :=
  {| V := <[idx:=row.1.1.1]> (V res);
     rho := <[idx:=row.2]> (rho res);
     K := <[idx:=row.1.1.2]> (K res);
     G := <[idx:=row.1.2]> (G res);
     fraction := <[idx:=Fin 1]> (fraction res) |}.

(** Two records, the second longer than the first. *)
Definition uneven_moduli : list elastic_properties :=
  [ {| V := [Fin 1]; rho := [Fin 4000]; K := [Fin 200e9]; G := [Fin 100e9];
       fraction := [Fin 0.5] |};
    {| V := [Fin 2; Fin 2]; rho := [Fin 3000; Fin 3100];
       K := [Fin 100e9; Fin 110e9]; G := [Fin 50e9; Fin 55e9];
       fraction := [Fin 0.5; Fin 0.5] |} ].

(** Two runs from related states agree: both return related states, or
    both raise the same exception. *)
Definition agree {St} (Rel : St -> St -> Prop) (m1 m2 : result St) : Prop :=
  match m1, m2 with
  | Ok u1, Ok u2 => Rel u1 u2
  | Raise e1, Raise e2 => e1 = e2
  | _, _ => False
  end.

(** Two arrays of length [n] with the same first [i] entries. *)
Definition same_prefix (n i : nat) (a b : array) : Prop :=
  length a = n /\ length b = n /\ take i a = take i b.

(** Two records of size [n] with the same first [i] rows. *)
Definition same_rows (n i : nat) (m1 m2 : elastic_properties) : Prop :=
  same_prefix n i (V m1) (V m2) /\ same_prefix n i (rho m1) (rho m2) /\
  same_prefix n i (K m1) (K m2) /\ same_prefix n i (G m1) (G m2) /\
  same_prefix n i (fraction m1) (fraction m2).

(** Two lists of [len] records, the first [j] of them with the same first
    [S i] rows and the others with the same first [i] rows. *)
Definition same_phases (n i len j : nat)
    (ms1 ms2 : list elastic_properties) : Prop :=
  length ms1 = len /\ length ms2 = len /\
  forall midx m1 m2,
    ms1 !! midx = Some m1 -> ms2 !! midx = Some m2 ->
    same_rows n (if decide (midx < j) then S i else i) m1 m2.

(** Row [idx] of the record [m] of phase [midx] holds what that phase of
    the rock [r] reports. *)
Definition row_stored {M} `{Mineral M} (r : composite M) (idx midx : nat)
    (m : elastic_properties) : Prop :=
  exists ph v k g d f,
    phases r !! midx = Some ph /\ phase_row ph v k g d f /\
    V m !! idx = Some v /\ K m !! idx = Some k /\ G m !! idx = Some g /\
    rho m !! idx = Some d /\ fraction m !! idx = Some f.

(** Row [idx] of every record holds what its phase reports in the rock
    right after [set_state(pressures[idx], temperatures[idx])]. *)
Definition point_stored {M} `{Mineral M} `{Composite M} (rock : composite M)
    (pressures temperatures : array) (idx : nat)
    (ms : list elastic_properties) : Prop :=
  exists r,
    set_states rock pressures temperatures (S idx) = Ok r /\
    forall midx m, ms !! midx = Some m -> row_stored r idx midx m.

(** At evaluation point [idx] the state can be set, and after it each of
    the first [len] phases of the rock reports a row: its four methods
    return and the density [molar_mass / molar_volume] is defined. *)
Definition point_readable {M} `{Mineral M} `{Composite M}
    (rock : composite M) (pressures temperatures : array) (len idx : nat)
    : Prop :=
  exists r,
    set_states rock pressures temperatures (S idx) = Ok r /\
    forall midx, midx < len ->
      exists ph v k g d f,
        phases r !! midx = Some ph /\ phase_row ph v k g d f.

(** Two records whose fractions are zero at the only evaluation point. *)
Definition zero_fraction_moduli : list elastic_properties :=
  [ {| V := [Fin 1e-5]; rho := [Fin 4000]; K := [Fin 200e9];
       G := [Fin 100e9]; fraction := [Fin 0] |};
    {| V := [Fin 2e-5]; rho := [Fin 3000]; K := [Fin 100e9];
       G := [Fin 50e9]; fraction := [Fin 0] |} ].

(** * Properties *)

(** Equalities of lists of finite numbers, down to the real numbers. *)
Ltac fin_list :=
  repeat match goal with
         | |- _ :: _ = _ :: _ => f_equal
         | |- Fin _ = Fin _ => apply f_equal
         | |- Some _ = Some _ => apply f_equal
         | |- Ok _ = Ok _ => apply f_equal
         end.

(** ** Results and loops *)

Lemma bind_Ok {A B} (m : result A) (f : A -> result B) (b : B) :
  m ≫= f = Ok b <-> exists a, m = Ok a /\ f a = Ok b.
Proof.
  destruct m as [a|e]; simpl; split.
  - intros Hf. exists a. auto.
  - intros (a' & Ha & Hf). congruence.
  - discriminate.
  - intros (a' & Ha & _). discriminate.
Qed.

(** Total correctness of a loop from an invariant: every iteration
    returns and re-establishes it. *)
Lemma for_loop_total {St} (Inv : nat -> St -> Prop)
    (body : nat -> St -> result St) (count start : nat) (s : St) :
  Inv start s ->
  (forall i t, start <= i < start + count -> Inv i t ->
     exists t', body i t = Ok t' /\ Inv (S i) t') ->
  exists s', for_loop body start count s = Ok s' /\ Inv (start + count) s'.
Proof.
  revert start s. induction count as [|count IH]; intros start s Hs Hbody.
  - exists s. rewrite Nat.add_0_r. auto.
  - destruct (Hbody start s) as (t & Ht & Hinv); [lia | assumption |].
    destruct (IH (S start) t) as (s' & Hs' & Hfin); [assumption | |].
    + intros i u Hi. apply Hbody. lia.
    + exists s'. simpl. rewrite Ht. simpl.
      replace (start + S count) with (S start + count) by lia. auto.
Qed.

(** Partial correctness: what holds of the state a loop returns. *)
Lemma for_loop_partial {St} (Inv : nat -> St -> Prop)
    (body : nat -> St -> result St) (count start : nat) (s s' : St) :
  for_loop body start count s = Ok s' ->
  Inv start s ->
  (forall i t t', start <= i < start + count -> Inv i t ->
     body i t = Ok t' -> Inv (S i) t') ->
  Inv (start + count) s'.
Proof.
  revert start s. induction count as [|count IH]; intros start s Hrun Hs Hbody.
  - simpl in Hrun. injection Hrun as <-. rewrite Nat.add_0_r. assumption.
  - simpl in Hrun. apply bind_Ok in Hrun as (t & Ht & Hrun).
    replace (start + S count) with (S start + count) by lia.
    apply (IH (S start) t); [assumption | |].
    + apply (Hbody start s); [lia | assumption | assumption].
    + intros i u u' Hi. apply Hbody. lia.
Qed.

(** A loop whose body raises at some iteration it reaches raises. *)
Lemma for_loop_raises {St} (body : nat -> St -> result St)
    (count start : nat) (s : St) (k : nat) :
  start <= k < start + count ->
  (forall t, raises (body k t)) ->
  raises (for_loop body start count s).
Proof.
  revert start s. induction count as [|count IH]; intros start s Hk Hraise.
  - lia.
  - simpl. destruct (body start s) as [t|e] eqn:Ht.
    + simpl. destruct (decide (k = start)) as [->|Hne].
      * destruct (Hraise s) as [e He]. congruence.
      * apply IH; [lia | assumption].
    + exists e. reflexivity.
Qed.

(** A loop raises [e] when it reaches, under its invariant, an iteration
    that raises [e]. *)
Lemma for_loop_raises_at {St} (Inv : nat -> St -> Prop)
    (body : nat -> St -> result St) (count start : nat) (s : St)
    (k : nat) (e : exn) :
  start <= k < start + count ->
  Inv start s ->
  (forall i t, start <= i < k -> Inv i t ->
     exists t', body i t = Ok t' /\ Inv (S i) t') ->
  (forall t, Inv k t -> body k t = Raise e) ->
  for_loop body start count s = Raise e.
Proof.
  revert start s. induction count as [|count IH]; intros start s Hk Hs Hstep He.
  - lia.
  - simpl. destruct (decide (start = k)) as [->|Hne].
    + by rewrite He.
    + destruct (Hstep start s) as (t & -> & Ht); [lia | assumption |].
      simpl. apply IH; [lia | assumption | | assumption].
      intros i u Hi. apply Hstep. lia.
Qed.

(** ** Arrays *)

Lemma getitem_Ok {A} (a : list A) (i : nat) (x : A) :
  getitem a i = Ok x <-> a !! i = Some x.
Proof.
  unfold getitem. destruct (a !! i); split; intros Hx; congruence.
Qed.

Lemma getitem_lt {A} (a : list A) (i : nat) :
  i < length a -> exists x, getitem a i = Ok x /\ a !! i = Some x.
Proof.
  intros Hi. destruct (lookup_lt_is_Some_2 a i Hi) as [x Hx].
  exists x. split; [by apply getitem_Ok | assumption].
Qed.

Lemma getitem_ge {A} (a : list A) (i : nat) :
  length a <= i -> getitem a i = Raise IndexError.
Proof.
  intros Hi. unfold getitem. by rewrite lookup_ge_None_2.
Qed.

Lemma setitem_Ok {A} (a a' : list A) (i : nat) (x : A) :
  setitem a i x = Ok a' <-> i < length a /\ a' = <[i:=x]> a.
Proof.
  unfold setitem. destruct (decide (i < length a)); split.
  - intros [= <-]. auto.
  - intros [_ ->]. reflexivity.
  - discriminate.
  - intros [Hi _]. lia.
Qed.

Lemma setitem_lt {A} (a : list A) (i : nat) (x : A) :
  i < length a -> setitem a i x = Ok (<[i:=x]> a).
Proof. intros Hi. by apply setitem_Ok. Qed.

Lemma length_np_ndarray (g : float) (n : nat) : length (np_ndarray g n) = n.
Proof. apply length_replicate. Qed.

Lemma length_np_zeros (n : nat) : length (np_zeros n) = n.
Proof. apply length_replicate. Qed.

(** ** The bulk averager *)

Lemma column_at_point (field : elastic_properties -> array)
    (ms : list elastic_properties) (i : nat) :
  Forall (fun m => i < length (field m)) ms ->
  column field ms i = Ok (at_point field ms i) /\
  length (at_point field ms i) = length ms.
Proof.
  induction 1 as [|m ms Hm _ [IHc IHl]].
  - split; reflexivity.
  - destruct (getitem_lt (field m) i Hm) as (x & Hget & Hx).
    unfold column, at_point in *. simpl. rewrite Hget, Hx. simpl.
    rewrite IHc. simpl. split; [reflexivity | f_equal; exact IHl].
Qed.

Lemma at_point_lookup (field : elastic_properties -> array)
    (ms : list elastic_properties) (i p : nat) (m : elastic_properties) :
  Forall (fun m => i < length (field m)) ms ->
  ms !! p = Some m ->
  exists x, field m !! i = Some x /\ at_point field ms i !! p = Some x.
Proof.
  intros Hall. revert p. induction Hall as [|m' ms Hm _ IH]; intros p Hp.
  - discriminate.
  - destruct (lookup_lt_is_Some_2 (field m') i Hm) as [x' Hx'].
    unfold at_point in *. simpl. rewrite Hx'.
    destruct p as [|p]; simpl in *.
    + injection Hp as <-. eauto.
    + apply IH. assumption.
Qed.

Lemma sized_Forall_lt (field : elastic_properties -> array) (n i : nat)
    (ms : list elastic_properties) :
  (forall m, sized n m -> length (field m) = n) ->
  Forall (sized n) ms -> i < n ->
  Forall (fun m => i < length (field m)) ms.
Proof.
  intros Hfield Hall Hi. eapply Forall_impl; [exact Hall|].
  intros m Hm. simpl. rewrite (Hfield m Hm). exact Hi.
Qed.

Lemma sized_set_size (g : float) (n : nat) : sized n (set_size g n).
Proof. repeat split; apply length_np_ndarray. Qed.

(** One iteration of [average_moduli] on well-sized input. *)
Lemma average_point_step (ms : list elastic_properties)
    (scheme : averaging_scheme) (n i : nat) (res : elastic_properties)
    (k g d : float) :
  Forall (sized n) ms -> sized n res -> i < n ->
  let V_mol := molar_volumes (at_point V ms i) (at_point fraction ms i) in
  scheme_gives scheme ms i (volume_fractions V_mol) k g d ->
  average_point ms scheme i res =
    Ok {| V := <[i:=py_sum V_mol]> (V res);
          rho := <[i:=d]> (rho res);
          K := <[i:=k]> (K res);
          G := <[i:=g]> (G res);
          fraction := <[i:=Fin 1]> (fraction res) |}.
Proof.
  intros Hms (HV & Hrho & HK & HG & Hfr) Hi V_mol (Hk & Hg & Hd).
  unfold average_point.
  destruct (column_at_point fraction ms i) as [-> _].
  { apply (sized_Forall_lt fraction n); [by intros m (_&_&_&_&?) | done | done]. }
  destruct (column_at_point V ms i) as [-> _].
  { apply (sized_Forall_lt V n); [by intros m (?&_) | done | done]. }
  destruct (column_at_point K ms i) as [-> _].
  { apply (sized_Forall_lt K n); [by intros m (_&_&?&_) | done | done]. }
  destruct (column_at_point G ms i) as [-> _].
  { apply (sized_Forall_lt G n); [by intros m (_&_&_&?&_) | done | done]. }
  destruct (column_at_point rho ms i) as [-> _].
  { apply (sized_Forall_lt rho n); [by intros m (_&?&_) | done | done]. }
  simpl. fold V_mol. rewrite Hk, Hg, Hd. simpl.
  rewrite !setitem_lt by lia. reflexivity.
Qed.

(** The per-phase reading of [V_mol] and [V_frac]. *)
Lemma volume_fractions_lookup (ms : list elastic_properties) (n i p : nat)
    (m : elastic_properties) :
  Forall (sized n) ms -> i < n -> ms !! p = Some m ->
  let V_mol := molar_volumes (at_point V ms i) (at_point fraction ms i) in
  exists v f,
    V m !! i = Some v /\ fraction m !! i = Some f /\
    V_mol !! p = Some (v * f)%fl /\
    volume_fractions V_mol !! p = Some (v * f / py_sum V_mol)%fl.
Proof.
  intros Hms Hi Hp V_mol.
  destruct (at_point_lookup V ms i p m) as (v & Hv & Hcv); [|done|].
  { apply (sized_Forall_lt V n); [by intros ? (?&_) | done | done]. }
  destruct (at_point_lookup fraction ms i p m) as (f & Hf & Hcf); [|done|].
  { apply (sized_Forall_lt fraction n); [by intros ? (_&_&_&_&?) | done | done]. }
  assert (HVm : V_mol !! p = Some (v * f)%fl).
  { unfold V_mol, molar_volumes. apply lookup_zip_with_Some. eauto. }
  exists v, f. repeat split; try assumption.
  unfold volume_fractions. rewrite list_lookup_fmap, HVm. reflexivity.
Qed.

(** C1. For a non-empty list of per-phase records whose arrays all have
    length [n], and a scheme that returns at every evaluation point,
    [average_moduli] returns a record [res] such that at every index
    [i < n]: [V_mol[p] = V[p][i] * fraction[p][i]] and
    [V_frac[p] = V_mol[p] / sum(V_mol)] for every phase [p]; [K], [G] and
    [rho] of [res] at [i] are what the scheme's [average_bulk_moduli],
    [average_shear_moduli] and [average_density] return on [V_frac] and
    the per-phase values; [V[i] = sum(V_mol)] and [fraction[i] = 1.0]. *)
Theorem average_moduli_volume_weighted (garbage : float)
    (ms : list elastic_properties) (scheme : averaging_scheme) (n : nat) :
  ms <> [] ->
  Forall (sized n) ms ->
  (forall i, i < n -> exists k g d,
     scheme_gives scheme ms i
       (volume_fractions
          (molar_volumes (at_point V ms i) (at_point fraction ms i))) k g d) ->
  exists res,
    average_moduli garbage ms scheme = Ok res /\
    forall i, i < n ->
      let V_mol := molar_volumes (at_point V ms i) (at_point fraction ms i) in
      let V_frac := volume_fractions V_mol in
      (forall p m, ms !! p = Some m ->
         exists v f,
           V m !! i = Some v /\ fraction m !! i = Some f /\
           V_mol !! p = Some (v * f)%fl /\
           V_frac !! p = Some (v * f / py_sum V_mol)%fl) /\
      (exists k g d,
         scheme_gives scheme ms i V_frac k g d /\
         K res !! i = Some k /\ G res !! i = Some g /\ rho res !! i = Some d) /\
      V res !! i = Some (py_sum V_mol) /\
      fraction res !! i = Some (Fin 1).
Proof.
  intros Hne Hms Hscheme.
  destruct ms as [|m0 ms']; [done|]. set (ms := m0 :: ms') in *.
  assert (Hn : length (V m0) = n).
  { apply Forall_cons in Hms as [(? & _) _]. assumption. }
  unfold average_moduli. simpl. rewrite Hn.
  pose (Inv := fun (i : nat) (res : elastic_properties) =>
    sized n res /\
    forall j, j < i ->
      let V_mol := molar_volumes (at_point V ms j) (at_point fraction ms j) in
      (exists k g d,
         scheme_gives scheme ms j (volume_fractions V_mol) k g d /\
         K res !! j = Some k /\ G res !! j = Some g /\ rho res !! j = Some d) /\
      V res !! j = Some (py_sum V_mol) /\
      fraction res !! j = Some (Fin 1)).
  destruct (for_loop_total Inv (average_point ms scheme) n 0 (set_size garbage n))
    as (res & Hres & Hsized & Hfacts).
  - split; [apply sized_set_size | intros j Hj; lia].
  - intros i t [_ Hi] [Ht Hprev]. simpl in Hi.
    destruct (Hscheme i Hi) as (k & g & d & Hgives).
    eexists. split; [by apply (average_point_step ms scheme n i t k g d)|].
    pose proof Ht as (HV & Hrho & HK & HG & Hfr).
    split; [repeat split; simpl; by rewrite length_insert|].
    intros j Hj. destruct (decide (j = i)) as [->|Hji].
    + simpl. rewrite !list_lookup_insert_eq by lia.
      split; [exists k, g, d|]; auto.
    + simpl. rewrite !list_lookup_insert_ne by lia.
      apply Hprev. lia.
  - exists res. split; [exact Hres|].
    intros i Hi. simpl in Hfacts. destruct (Hfacts i Hi) as (Hkgd & HV & Hfr).
    repeat split; try assumption.
    intros p m Hp. by apply (volume_fractions_lookup ms n i p m).
Qed.

(** The hypotheses of [average_moduli_volume_weighted] at
    [two_phase_moduli] under the Voigt scheme. *)
Lemma average_moduli_volume_weighted_witness :
  two_phase_moduli <> [] /\
  Forall (sized 1) two_phase_moduli /\
  exists res,
    average_moduli NaN two_phase_moduli voigt = Ok res /\
    fraction res !! 0 = Some (Fin 1).
Proof.
  assert (Hne : two_phase_moduli <> []) by discriminate.
  assert (Hsz : Forall (sized 1) two_phase_moduli).
  { repeat constructor. }
  assert (Hscheme : forall i, i < 1 -> exists k g d,
    scheme_gives voigt two_phase_moduli i
      (volume_fractions
         (molar_volumes (at_point V two_phase_moduli i)
            (at_point fraction two_phase_moduli i))) k g d).
  { intros i _. eexists _, _, _. repeat split. }
  repeat (split; [assumption|]).
  destruct (average_moduli_volume_weighted NaN two_phase_moduli voigt 1
              Hne Hsz Hscheme) as (res & Hrun & Hfacts).
  exists res. split; [assumption|].
  destruct (Hfacts 0) as (_ & _ & _ & Hfr); [lia | exact Hfr].
Defined.

Lemma average_moduli_empty (garbage : float) (scheme : averaging_scheme) :
  average_moduli garbage [] scheme = Raise IndexError.
Proof. reflexivity. Qed.

(** ** Sizes of the records *)

Lemma setitem_length {A} (a a' : list A) (i : nat) (x : A) :
  setitem a i x = Ok a' -> length a' = length a.
Proof. intros [_ ->]%setitem_Ok. apply length_insert. Qed.

Lemma calculate_phase_sized {M} `{Mineral M} (rock : composite M)
    (n idx midx : nat) (moduli moduli' : list elastic_properties) :
  calculate_phase rock idx midx moduli = Ok moduli' ->
  Forall (sized n) moduli ->
  length moduli' = length moduli /\ Forall (sized n) moduli'.
Proof.
  intros Hrun Hall. unfold calculate_phase in Hrun.
  apply bind_Ok in Hrun as (m & Hm & Hrun).
  apply bind_Ok in Hrun as (ph & Hph & Hrun).
  apply bind_Ok in Hrun as (v & Hv & Hrun).
  apply bind_Ok in Hrun as (m_V & HmV & Hrun).
  apply bind_Ok in Hrun as (k & Hk & Hrun).
  apply bind_Ok in Hrun as (m_K & HmK & Hrun).
  apply bind_Ok in Hrun as (g & Hg & Hrun).
  apply bind_Ok in Hrun as (m_G & HmG & Hrun).
  apply bind_Ok in Hrun as (mass & Hmass & Hrun).
  apply bind_Ok in Hrun as (v' & Hv' & Hrun).
  apply bind_Ok in Hrun as (r & Hr & Hrun).
  apply bind_Ok in Hrun as (m_rho & Hmrho & Hrun).
  apply bind_Ok in Hrun as (m_fr & Hmfr & Hrun).
  injection Hrun as <-.
  apply getitem_Ok in Hm.
  assert (Hsz : sized n m).
  { eapply Forall_lookup_1; eassumption. }
  destruct Hsz as (HV & Hrho & HK & HG & Hfr).
  split; [apply length_insert|].
  apply Forall_insert; [assumption|].
  apply setitem_length in HmV, HmK, HmG, Hmrho, Hmfr.
  repeat split; simpl; congruence.
Qed.

Lemma calculate_point_sized {M} `{Mineral M} `{Composite M}
    (pressures temperatures : array) (n idx : nat)
    (st st' : composite M * list elastic_properties) :
  calculate_point pressures temperatures idx st = Ok st' ->
  Forall (sized n) st.2 ->
  length st'.2 = length st.2 /\ Forall (sized n) st'.2.
Proof.
  destruct st as [rock moduli]. intros Hrun Hall. simpl in *.
  apply bind_Ok in Hrun as (p & Hp & Hrun).
  apply bind_Ok in Hrun as (t & Ht & Hrun).
  apply bind_Ok in Hrun as (rock' & Hrock & Hrun).
  apply bind_Ok in Hrun as (moduli' & Hloop & Hrun).
  injection Hrun as <-. simpl.
  apply (for_loop_partial
    (fun _ ms => length ms = length moduli /\ Forall (sized n) ms)
    (calculate_phase rock' idx) (length moduli) 0 moduli moduli' Hloop).
  - auto.
  - intros i ms ms' _ [Hlen Hms] Hstep.
    destruct (calculate_phase_sized rock' n idx i ms ms' Hstep Hms).
    split; [congruence | assumption].
Qed.

Lemma calculate_moduli_sized {M} `{Mineral M} `{Composite M}
    (garbage : float) (rock rock' : composite M)
    (pressures temperatures : array) (ms : list elastic_properties) :
  calculate_moduli garbage rock pressures temperatures = Ok (rock', ms) ->
  length ms = length (phases rock) /\ Forall (sized (length pressures)) ms.
Proof.
  intros Hrun. unfold calculate_moduli, for_range in Hrun.
  set (n := length pressures) in *.
  set (init := map (fun _ => set_size garbage n) (phases rock)) in *.
  assert (Hinit : length init = length (phases rock)).
  { subst init. apply length_map. }
  rewrite <- Hinit.
  change (length (rock', ms).2 = length init /\ Forall (sized n) (rock', ms).2).
  apply (for_loop_partial
    (fun _ st => length st.2 = length init /\ Forall (sized n) st.2)
    _ _ _ _ _ Hrun).
  - simpl. split; [reflexivity|].
    subst init. apply Forall_fmap, Forall_true. intros ph. apply sized_set_size.
  - intros i st st' _ [Hlen Hst] Hstep.
    destruct (calculate_point_sized pressures temperatures n i st st' Hstep Hst).
    split; [congruence | assumption].
Qed.

Lemma average_point_sized (ms : list elastic_properties)
    (scheme : averaging_scheme) (n i : nat) (res res' : elastic_properties) :
  average_point ms scheme i res = Ok res' -> sized n res -> sized n res'.
Proof.
  intros Hrun (HV & Hrho & HK & HG & Hfr). unfold average_point in Hrun.
  apply bind_Ok in Hrun as (fractions & _ & Hrun).
  apply bind_Ok in Hrun as (V_ph & _ & Hrun).
  apply bind_Ok in Hrun as (K_ph & _ & Hrun).
  apply bind_Ok in Hrun as (G_ph & _ & Hrun).
  apply bind_Ok in Hrun as (rho_ph & _ & Hrun).
  apply bind_Ok in Hrun as (r_V & HrV & Hrun).
  apply bind_Ok in Hrun as (k & _ & Hrun).
  apply bind_Ok in Hrun as (r_K & HrK & Hrun).
  apply bind_Ok in Hrun as (g & _ & Hrun).
  apply bind_Ok in Hrun as (r_G & HrG & Hrun).
  apply bind_Ok in Hrun as (d & _ & Hrun).
  apply bind_Ok in Hrun as (r_rho & Hrrho & Hrun).
  apply bind_Ok in Hrun as (r_fr & Hrfr & Hrun).
  injection Hrun as <-.
  apply setitem_length in HrV, HrK, HrG, Hrrho, Hrfr.
  repeat split; simpl; congruence.
Qed.

Lemma average_moduli_sized (garbage : float) (ms : list elastic_properties)
    (scheme : averaging_scheme) (res : elastic_properties) :
  average_moduli garbage ms scheme = Ok res ->
  exists m0, ms !! 0 = Some m0 /\ sized (length (V m0)) res.
Proof.
  intros Hrun. unfold average_moduli in Hrun.
  apply bind_Ok in Hrun as (m0 & Hm0 & Hrun). apply getitem_Ok in Hm0.
  exists m0. split; [assumption|]. unfold for_range in Hrun.
  apply (for_loop_partial (fun _ r => sized (length (V m0)) r)
           _ _ _ _ _ Hrun).
  - apply sized_set_size.
  - intros i t t' _ Ht Hstep. by apply (average_point_sized ms scheme _ i t t').
Qed.

(** ** The velocity deriver *)

Lemma velocity_point_step (m : elastic_properties) (i : nat)
    (mat_vs mat_vp mat_vphi : array) (k g r : float) :
  K m !! i = Some k -> G m !! i = Some g -> rho m !! i = Some r ->
  i < length mat_vs -> i < length mat_vp -> i < length mat_vphi ->
  velocity_point m i (mat_vs, mat_vp, mat_vphi) =
    Ok (<[i:=fsqrt (g / r)]> mat_vs,
        <[i:=fsqrt ((k + Fin 4 / Fin 3 * g) / r)]> mat_vp,
        <[i:=fsqrt (k / r)]> mat_vphi).
Proof.
  intros Hk Hg Hr Hvs Hvp Hvphi. unfold velocity_point.
  apply getitem_Ok in Hk, Hg, Hr. rewrite Hg, Hr, Hk. simpl.
  rewrite !setitem_lt by assumption. reflexivity.
Qed.

(** On a record whose arrays have one length, [compute_velocities]
    returns, and each velocity is the float formula of the source. *)
Lemma compute_velocities_formula (garbage : float) (m : elastic_properties)
    (n : nat) :
  sized n m ->
  exists mat_vp mat_vs mat_vphi,
    compute_velocities garbage m = Ok (mat_vp, mat_vs, mat_vphi) /\
    length mat_vp = n /\ length mat_vs = n /\ length mat_vphi = n /\
    forall i k g r,
      K m !! i = Some k -> G m !! i = Some g -> rho m !! i = Some r ->
      mat_vs !! i = Some (fsqrt (g / r)) /\
      mat_vp !! i = Some (fsqrt ((k + Fin 4 / Fin 3 * g) / r)) /\
      mat_vphi !! i = Some (fsqrt (k / r)).
Proof.
  intros (HV & Hrho & HK & HG & Hfr).
  pose (Inv := fun (i : nat) (st : array * array * array) =>
    let '(mat_vs, mat_vp, mat_vphi) := st in
    (length mat_vs = n /\ length mat_vp = n /\ length mat_vphi = n) /\
    forall j k g r, j < i ->
      K m !! j = Some k -> G m !! j = Some g -> rho m !! j = Some r ->
      mat_vs !! j = Some (fsqrt (g / r)) /\
      mat_vp !! j = Some (fsqrt ((k + Fin 4 / Fin 3 * g) / r)) /\
      mat_vphi !! j = Some (fsqrt (k / r))).
  destruct (for_loop_total Inv (velocity_point m) n 0
              (np_ndarray garbage n, np_ndarray garbage n, np_ndarray garbage n))
    as ([[mat_vs mat_vp] mat_vphi] & Hrun & (Hlen & Hval)).
  - simpl. rewrite !length_np_ndarray. split; [auto | intros; lia].
  - intros i [[mat_vs mat_vp] mat_vphi] [_ Hi] [(Hvs & Hvp & Hvphi) Hprev].
    simpl in Hi.
    destruct (lookup_lt_is_Some_2 (K m) i) as [k Hk]; [lia|].
    destruct (lookup_lt_is_Some_2 (G m) i) as [g Hg]; [lia|].
    destruct (lookup_lt_is_Some_2 (rho m) i) as [r Hr]; [lia|].
    eexists. split.
    { apply (velocity_point_step m i _ _ _ k g r); try assumption; lia. }
    simpl. rewrite !length_insert. split; [auto|].
    intros j k' g' r' Hj Hk' Hg' Hr'.
    destruct (decide (j = i)) as [->|Hji].
    + rewrite !list_lookup_insert_eq by lia.
      replace k' with k by congruence. replace g' with g by congruence.
      replace r' with r by congruence. auto.
    + rewrite !list_lookup_insert_ne by lia.
      apply Hprev; [lia | assumption..].
  - exists mat_vp, mat_vs, mat_vphi.
    unfold compute_velocities, for_range. rewrite HV, Hrun. simpl.
    destruct Hlen as (Hvs & Hvp & Hvphi).
    split; [reflexivity|]. repeat (split; [assumption|]).
    intros i k g r Hk Hg Hr. apply (Hval i k g r); try assumption.
    apply lookup_lt_Some in Hk. lia.
Qed.

(** Finite arithmetic is real arithmetic. *)

Lemma fdiv_Fin (a b : R) : b <> 0%R -> (Fin a / Fin b)%fl = Fin (a / b).
Proof. intros Hb. unfold fdiv. destruct (Req_dec_T b 0); [contradiction | reflexivity]. Qed.

Lemma fdiv_zero_zero : (Fin 0 / Fin 0)%fl = NaN.
Proof. unfold fdiv. destruct (Req_dec_T 0 0); [reflexivity | contradiction]. Qed.

Lemma fsqrt_Fin (a : R) : (0 <= a)%R -> fsqrt (Fin a) = Fin (sqrt a).
Proof. intros Ha. unfold fsqrt. destruct (Rlt_dec a 0); [lra | reflexivity]. Qed.

Lemma fsqrt_negative (a : R) : (a < 0)%R -> fsqrt (Fin a) = NaN.
Proof. intros Ha. unfold fsqrt. destruct (Rlt_dec a 0); [reflexivity | contradiction]. Qed.

Lemma four_thirds : (Fin 4 / Fin 3)%fl = Fin (4 / 3).
Proof. apply fdiv_Fin. lra. Qed.

Lemma py_truediv_Fin (a b : R) :
  b <> 0%R -> py_truediv (Fin a) (Fin b) = Ok (Fin (a / b)).
Proof.
  intros Hb. unfold py_truediv. destruct (Req_dec_T b 0); [contradiction|].
  by rewrite fdiv_Fin.
Qed.

Lemma positive_Fin (x : float) :
  positive x -> exists r, x = Fin r /\ (0 < r)%R.
Proof. destruct x as [r| | |]; simpl; [eauto | done..]. Qed.

Lemma nonneg_Fin (x : float) :
  nonneg x -> exists r, x = Fin r /\ (0 <= r)%R.
Proof. destruct x as [r| | |]; simpl; [eauto | done..]. Qed.

(** The three radicands on physical input, as real numbers. *)
Lemma velocities_real (k g r : R) :
  (0 <= k)%R -> (0 <= g)%R -> (0 < r)%R ->
  fsqrt (Fin g / Fin r) = Fin (sqrt (g / r)) /\
  fsqrt ((Fin k + Fin 4 / Fin 3 * Fin g) / Fin r) =
    Fin (sqrt ((k + 4 / 3 * g) / r)) /\
  fsqrt (Fin k / Fin r) = Fin (sqrt (k / r)).
Proof.
  intros Hk Hg Hr.
  assert (Hinv : (0 < / r)%R) by (by apply Rinv_0_lt_compat).
  rewrite four_thirds.
  change (Fin k + Fin (4 / 3) * Fin g)%fl with (Fin (k + 4 / 3 * g)).
  rewrite !fdiv_Fin by lra.
  rewrite !fsqrt_Fin; [auto | unfold Rdiv; nra..].
Qed.

(** [compute_velocities] on a physical record, index by index. *)
Lemma compute_velocities_physical (garbage : float) (m : elastic_properties)
    (n : nat) :
  sized n m ->
  Forall positive (rho m) -> Forall nonneg (K m) -> Forall nonneg (G m) ->
  exists mat_vp mat_vs mat_vphi,
    compute_velocities garbage m = Ok (mat_vp, mat_vs, mat_vphi) /\
    length mat_vp = n /\ length mat_vs = n /\ length mat_vphi = n /\
    forall i, i < n ->
      exists k g r : R,
        ((0 <= k)%R /\ (0 <= g)%R /\ (0 < r)%R) /\
        K m !! i = Some (Fin k) /\ G m !! i = Some (Fin g) /\
        rho m !! i = Some (Fin r) /\
        mat_vs !! i = Some (Fin (sqrt (g / r))) /\
        mat_vp !! i = Some (Fin (sqrt ((k + 4 / 3 * g) / r))) /\
        mat_vphi !! i = Some (Fin (sqrt (k / r))).
Proof.
  intros Hsz Hrho HK HG.
  destruct (compute_velocities_formula garbage m n Hsz)
    as (mat_vp & mat_vs & mat_vphi & Hrun & Hvp & Hvs & Hvphi & Hval).
  exists mat_vp, mat_vs, mat_vphi. repeat (split; [assumption|]).
  intros i Hi. destruct Hsz as (_ & Hlrho & HlK & HlG & _).
  destruct (lookup_lt_is_Some_2 (K m) i) as [k Hk]; [lia|].
  destruct (lookup_lt_is_Some_2 (G m) i) as [g Hg]; [lia|].
  destruct (lookup_lt_is_Some_2 (rho m) i) as [r Hr]; [lia|].
  destruct (nonneg_Fin k) as (k' & -> & Hk').
  { exact (Forall_lookup_1 _ _ _ _ HK Hk). }
  destruct (nonneg_Fin g) as (g' & -> & Hg').
  { exact (Forall_lookup_1 _ _ _ _ HG Hg). }
  destruct (positive_Fin r) as (r' & -> & Hr').
  { exact (Forall_lookup_1 _ _ _ _ Hrho Hr). }
  exists k', g', r'. split; [auto|]. repeat (split; [assumption|]).
  destruct (Hval i _ _ _ Hk Hg Hr) as (Hs & Hp & Hphi).
  destruct (velocities_real k' g' r') as (Es & Ep & Ephi); try assumption.
  rewrite <- Es, <- Ep, <- Ephi. auto.
Qed.

(** C2. On a record with [rho > 0], [K >= 0] and [G >= 0] at every
    index, [compute_velocities] returns three arrays of the length of the
    record with [Vs = sqrt(G/rho)], [Vp = sqrt((K + 4/3 G)/rho)] and
    [Vphi = sqrt(K/rho)] at each index; with [K = G = 0] at every index
    all three velocities are [0] at every index. *)
Theorem compute_velocities_sqrt (garbage : float) (m : elastic_properties)
    (n : nat) :
  sized n m ->
  Forall positive (rho m) -> Forall nonneg (K m) -> Forall nonneg (G m) ->
  exists mat_vp mat_vs mat_vphi,
    compute_velocities garbage m = Ok (mat_vp, mat_vs, mat_vphi) /\
    length mat_vp = n /\ length mat_vs = n /\ length mat_vphi = n /\
    (forall i, i < n ->
       exists k g r : R,
         K m !! i = Some (Fin k) /\ G m !! i = Some (Fin g) /\
         rho m !! i = Some (Fin r) /\
         mat_vs !! i = Some (Fin (sqrt (g / r))) /\
         mat_vp !! i = Some (Fin (sqrt ((k + 4 / 3 * g) / r))) /\
         mat_vphi !! i = Some (Fin (sqrt (k / r)))) /\
    (Forall (fun k => k = Fin 0) (K m) -> Forall (fun g => g = Fin 0) (G m) ->
     Forall (fun v => v = Fin 0) mat_vp /\
     Forall (fun v => v = Fin 0) mat_vs /\
     Forall (fun v => v = Fin 0) mat_vphi).
Proof.
  intros Hsz Hrho HK HG.
  destruct (compute_velocities_physical garbage m n Hsz Hrho HK HG)
    as (mat_vp & mat_vs & mat_vphi & Hrun & Hvp & Hvs & Hvphi & Hval).
  exists mat_vp, mat_vs, mat_vphi. repeat (split; [assumption|]). split.
  - intros i Hi.
    destruct (Hval i Hi) as (k & g & r & _ & Hk & Hg & Hr & Hs & Hp & Hphi).
    exists k, g, r. auto 7.
  - intros HK0 HG0.
    assert (Hzero : forall i, i < n ->
      mat_vp !! i = Some (Fin 0) /\ mat_vs !! i = Some (Fin 0) /\
      mat_vphi !! i = Some (Fin 0)).
    { intros i Hi.
      destruct (Hval i Hi) as (k & g & r & (_ & _ & Hr0) & Hk & Hg & Hr & Hs & Hp & Hphi).
      pose proof (Forall_lookup_1 _ _ _ _ HK0 Hk) as [= ->].
      pose proof (Forall_lookup_1 _ _ _ _ HG0 Hg) as [= ->].
      rewrite Hs, Hp, Hphi.
      replace ((0 + 4 / 3 * 0) / r)%R with 0%R by (field; lra).
      replace (0 / r)%R with 0%R by (field; lra).
      rewrite sqrt_0. auto. }
    repeat split; apply Forall_lookup_2; intros i v Hv;
      pose proof (lookup_lt_Some _ _ _ Hv) as Hi;
      destruct (Hzero i) as (Zp & Zs & Zphi); try lia; congruence.
Qed.

(** The hypotheses of [compute_velocities_sqrt] at [physical_record]. *)
Lemma compute_velocities_sqrt_witness :
  sized 2 physical_record /\
  Forall positive (rho physical_record) /\
  Forall nonneg (K physical_record) /\
  Forall nonneg (G physical_record) /\
  exists mat_vp mat_vs mat_vphi,
    compute_velocities NaN physical_record = Ok (mat_vp, mat_vs, mat_vphi) /\
    length mat_vp = 2.
Proof.
  assert (Hsz : sized 2 physical_record) by (repeat split; reflexivity).
  assert (Hrho : Forall positive (rho physical_record)).
  { repeat constructor; simpl; lra. }
  assert (HK : Forall nonneg (K physical_record)).
  { repeat constructor; simpl; lra. }
  assert (HG : Forall nonneg (G physical_record)).
  { repeat constructor; simpl; lra. }
  repeat (split; [assumption|]).
  destruct (compute_velocities_sqrt NaN physical_record 2 Hsz Hrho HK HG)
    as (mat_vp & mat_vs & mat_vphi & Hrun & Hlen & _).
  exists mat_vp, mat_vs, mat_vphi. split; assumption.
Defined.

(** C10. On a record with [K >= 0], [G >= 0] and [rho > 0] at every
    index, the returned velocities satisfy [Vp >= Vs] and [Vp >= Vphi] at
    every index. *)
Theorem compressional_velocity_is_largest (garbage : float)
    (m : elastic_properties) (n : nat) :
  sized n m ->
  Forall positive (rho m) -> Forall nonneg (K m) -> Forall nonneg (G m) ->
  exists mat_vp mat_vs mat_vphi,
    compute_velocities garbage m = Ok (mat_vp, mat_vs, mat_vphi) /\
    forall i, i < n ->
      exists vp vs vphi : R,
        mat_vp !! i = Some (Fin vp) /\ mat_vs !! i = Some (Fin vs) /\
        mat_vphi !! i = Some (Fin vphi) /\
        (vs <= vp)%R /\ (vphi <= vp)%R.
Proof.
  intros Hsz Hrho HK HG.
  destruct (compute_velocities_physical garbage m n Hsz Hrho HK HG)
    as (mat_vp & mat_vs & mat_vphi & Hrun & _ & _ & _ & Hval).
  exists mat_vp, mat_vs, mat_vphi. split; [assumption|].
  intros i Hi.
  destruct (Hval i Hi) as (k & g & r & (Hk0 & Hg0 & Hr0) & _ & _ & _ & Hs & Hp & Hphi).
  eexists _, _, _. repeat (split; [eassumption|]).
  assert (Hinv : (0 < / r)%R) by (by apply Rinv_0_lt_compat).
  split; apply sqrt_le_1_alt; unfold Rdiv; nra.
Qed.

(** The hypotheses of [compressional_velocity_is_largest] at
    [physical_record]. *)
Lemma compressional_velocity_is_largest_witness :
  sized 2 physical_record /\
  Forall positive (rho physical_record) /\
  Forall nonneg (K physical_record) /\
  Forall nonneg (G physical_record) /\
  exists mat_vp mat_vs mat_vphi,
    compute_velocities NaN physical_record = Ok (mat_vp, mat_vs, mat_vphi).
Proof.
  assert (Hsz : sized 2 physical_record) by (repeat split; reflexivity).
  assert (Hrho : Forall positive (rho physical_record)).
  { repeat constructor; simpl; lra. }
  assert (HK : Forall nonneg (K physical_record)).
  { repeat constructor; simpl; lra. }
  assert (HG : Forall nonneg (G physical_record)).
  { repeat constructor; simpl; lra. }
  repeat (split; [assumption|]).
  destruct (compressional_velocity_is_largest NaN physical_record 2
              Hsz Hrho HK HG)
    as (mat_vp & mat_vs & mat_vphi & Hrun & _).
  exists mat_vp, mat_vs, mat_vphi. assumption.
Defined.

(** [compute_velocities] has no failure of its own on a well-sized
    record, whatever the numbers. *)
Lemma compute_velocities_returns (garbage : float) (m : elastic_properties)
    (n : nat) :
  sized n m -> returns (compute_velocities garbage m).
Proof.
  intros Hsz.
  destruct (compute_velocities_formula garbage m n Hsz)
    as (mat_vp & mat_vs & mat_vphi & Hrun & _).
  eexists. exact Hrun.
Qed.

(** The claim C9 fails: with [G = -1], [K = 4], [rho = 1] the radicand of
    [Vs] is [-1]; [compute_velocities] does not raise and returns NaN for
    [Vs] at that index. *)
Lemma negative_radicand_gives_nan :
  ~ raises (compute_velocities (Fin 0) unstable_record) /\
  exists mat_vp mat_vphi,
    compute_velocities (Fin 0) unstable_record = Ok (mat_vp, [NaN], mat_vphi).
Proof.
  assert (Hrun : compute_velocities (Fin 0) unstable_record =
                   Ok ([fsqrt ((Fin 4 + Fin 4 / Fin 3 * Fin (-1)) / Fin 1)],
                       [fsqrt (Fin (-1) / Fin 1)],
                       [fsqrt (Fin 4 / Fin 1)])) by reflexivity.
  rewrite (fdiv_Fin (-1) 1) in Hrun by lra.
  rewrite (fsqrt_negative (-1 / 1)) in Hrun by lra.
  split.
  - intros [e He]. congruence.
  - eauto.
Qed.

(** C9, amended. On a record whose arrays have one length,
    [compute_velocities] never raises; at an index where [K], [G] and
    [rho] are finite with [rho > 0], a velocity whose radicand is negative
    is NaN in the result. *)
Theorem negative_radicand_is_nan (garbage : float) (m : elastic_properties)
    (n : nat) :
  sized n m ->
  exists mat_vp mat_vs mat_vphi,
    compute_velocities garbage m = Ok (mat_vp, mat_vs, mat_vphi) /\
    forall i (k g r : R),
      K m !! i = Some (Fin k) -> G m !! i = Some (Fin g) ->
      rho m !! i = Some (Fin r) -> (0 < r)%R ->
      ((g / r < 0)%R -> mat_vs !! i = Some NaN) /\
      (((k + 4 / 3 * g) / r < 0)%R -> mat_vp !! i = Some NaN) /\
      ((k / r < 0)%R -> mat_vphi !! i = Some NaN).
Proof.
  intros Hsz.
  destruct (compute_velocities_formula garbage m n Hsz)
    as (mat_vp & mat_vs & mat_vphi & Hrun & _ & _ & _ & Hval).
  exists mat_vp, mat_vs, mat_vphi. split; [assumption|].
  intros i k g r Hk Hg Hr Hr0.
  destruct (Hval i _ _ _ Hk Hg Hr) as (Hs & Hp & Hphi).
  rewrite four_thirds in Hp.
  change (Fin k + Fin (4 / 3) * Fin g)%fl with (Fin (k + 4 / 3 * g)) in Hp.
  rewrite !fdiv_Fin in Hs, Hp, Hphi by lra.
  repeat split; intros Hneg.
  - by rewrite Hs, fsqrt_negative.
  - by rewrite Hp, fsqrt_negative.
  - by rewrite Hphi, fsqrt_negative.
Qed.

(** The hypotheses of [negative_radicand_is_nan] at [unstable_record]. *)
Lemma negative_radicand_is_nan_witness :
  sized 1 unstable_record /\
  exists mat_vp mat_vs mat_vphi,
    compute_velocities NaN unstable_record = Ok (mat_vp, mat_vs, mat_vphi) /\
    forall i (k g r : R),
      K unstable_record !! i = Some (Fin k) ->
      G unstable_record !! i = Some (Fin g) ->
      rho unstable_record !! i = Some (Fin r) -> (0 < r)%R ->
      ((g / r < 0)%R -> mat_vs !! i = Some NaN) /\
      (((k + 4 / 3 * g) / r < 0)%R -> mat_vp !! i = Some NaN) /\
      ((k / r < 0)%R -> mat_vphi !! i = Some NaN).
Proof.
  assert (Hsz : sized 1 unstable_record) by (repeat split; reflexivity).
  split; [exact Hsz|].
  exact (negative_radicand_is_nan NaN unstable_record 1 Hsz).
Defined.

(** ** The worked example *)

(** [calculate_moduli] on two phases and one evaluation point. *)
Lemma calculate_moduli_two_phases {M} `{Mineral M} `{Composite M}
    (garbage : float) (m1 m2 : M) (p t : float)
    (f1 f2 v1 v2 w1 w2 k1 k2 g1 g2 : R) :
  let rock := mk_composite [Phase.mk (Fin f1) m1; Phase.mk (Fin f2) m2] in
  set_state rock p t = Ok rock ->
  reports m1 v1 w1 k1 g1 -> reports m2 v2 w2 k2 g2 ->
  v1 <> 0%R -> v2 <> 0%R ->
  calculate_moduli garbage rock [p] [t] =
    Ok (rock,
        [ {| V := [Fin (f1 * v1)]; rho := [Fin (w1 / v1)]; K := [Fin k1];
             G := [Fin g1]; fraction := [Fin f1] |};
          {| V := [Fin (f2 * v2)]; rho := [Fin (w2 / v2)]; K := [Fin k2];
             G := [Fin g2]; fraction := [Fin f2] |} ]).
Proof.
  intros rock Hset (Hv1 & Hw1 & Hk1 & Hg1) (Hv2 & Hw2 & Hk2 & Hg2) Hn1 Hn2.
  unfold calculate_moduli, for_range. simpl.
  rewrite Hset. simpl. unfold calculate_phase, for_range. simpl.
  rewrite Hv1, Hk1, Hg1, Hw1. simpl. rewrite py_truediv_Fin by assumption. simpl.
  rewrite Hv2, Hk2, Hg2, Hw2. simpl. rewrite py_truediv_Fin by assumption. simpl.
  reflexivity.
Qed.

(** C4. A rock of two phases with fractions [0.5, 0.5], molar volumes
    [1e-5, 2e-5], [K = 200e9, 100e9], [G = 100e9, 50e9] and densities
    [4000, 3000]: [calculate_moduli] stores [V = fraction * molar volume],
    the normalisation of [average_moduli] gives the volume fractions
    [1/3, 2/3], and under the Voigt scheme the bulk [K] is
    [1/3 * 200e9 + 2/3 * 100e9 = 400e9 / 3]. *)
Theorem two_phase_voigt_example {M} `{Mineral M} `{Composite M}
    (garbage : float) (m1 m2 : M) (p t : float) :
  let rock := mk_composite [Phase.mk (Fin 0.5) m1; Phase.mk (Fin 0.5) m2] in
  set_state rock p t = Ok rock ->
  reports m1 1e-5 (4000 * 1e-5) 200e9 100e9 ->
  reports m2 2e-5 (3000 * 2e-5) 100e9 50e9 ->
  exists ms res,
    calculate_moduli garbage rock [p] [t] = Ok (rock, ms) /\
    at_point V ms 0 = [Fin (0.5 * 1e-5); Fin (0.5 * 2e-5)] /\
    at_point rho ms 0 = [Fin 4000; Fin 3000] /\
    volume_fractions
      (molar_volumes (at_point V ms 0) (at_point fraction ms 0)) =
      [Fin (1 / 3); Fin (2 / 3)] /\
    average_moduli garbage ms voigt = Ok res /\
    K res = [Fin (1 / 3 * 200e9 + 2 / 3 * 100e9)] /\
    K res = [Fin (400e9 / 3)].
Proof.
  intros rock Hset Hm1 Hm2.
  eexists _, _. split.
  { apply (calculate_moduli_two_phases garbage m1 m2 p t); try eassumption; lra. }
  split; [reflexivity|].
  split; [simpl; fin_list; lra|].
  assert (Hfrac :
    volume_fractions [Fin (0.5 * 1e-5 * 0.5); Fin (0.5 * 2e-5 * 0.5)] =
      [Fin (1 / 3); Fin (2 / 3)]).
  { unfold volume_fractions, py_sum. simpl.
    rewrite !fdiv_Fin by lra. fin_list; lra. }
  split; [exact Hfrac|].
  unfold average_moduli, for_range, average_point, column. simpl.
  split; [reflexivity|]. simpl. rewrite Hfrac.
  unfold weighted_mean, py_sum. simpl.
  split; fin_list; lra.
Qed.

(** The hypotheses of [two_phase_voigt_example] at [two_phase_rock], whose
    minerals report the same values at every state. *)
Lemma two_phase_voigt_example_witness :
  set_state two_phase_rock (Fin 25e9) (Fin 2000) = Ok two_phase_rock /\
  exists ms res,
    calculate_moduli NaN two_phase_rock [Fin 25e9] [Fin 2000] =
      Ok (two_phase_rock, ms) /\
    average_moduli NaN ms voigt = Ok res /\
    K res = [Fin (400e9 / 3)].
Proof.
  split; [reflexivity|].
  destruct (two_phase_voigt_example NaN
              (mk_frozen 1e-5 (4000 * 1e-5) 200e9 100e9)
              (mk_frozen 2e-5 (3000 * 2e-5) 100e9 50e9)
              (Fin 25e9) (Fin 2000))
    as (ms & res & Hcalc & _ & _ & _ & Havg & _ & HK).
  - reflexivity.
  - repeat split.
  - repeat split.
  - exists ms, res. auto.
Defined.

(** ** The size invariant along the pipeline *)

(** The bulk record has its size from allocation on, after any number of
    iterations of the filling loop. *)
Lemma average_moduli_filling_sized (garbage : float)
    (ms : list elastic_properties) (scheme : averaging_scheme)
    (n count : nat) (res : elastic_properties) :
  for_loop (average_point ms scheme) 0 count (set_size garbage n) = Ok res ->
  sized n res.
Proof.
  intros Hrun.
  apply (for_loop_partial (fun _ r => sized n r) _ _ _ _ _ Hrun).
  - apply sized_set_size.
  - intros i t t' _ Ht Hstep. by apply (average_point_sized ms scheme n i t t').
Qed.

(** C3. Every record [calculate_moduli] returns (one per phase) has its
    five arrays of the length of [pressures]; so has the bulk record
    [average_moduli] returns for them; and [compute_velocities], which only
    reads the record, returns on it three arrays of that length. *)
Theorem records_keep_one_length {M} `{Mineral M} `{Composite M}
    (garbage : float) (rock rock' : composite M)
    (pressures temperatures : array) (ms : list elastic_properties) :
  calculate_moduli garbage rock pressures temperatures = Ok (rock', ms) ->
  length ms = length (phases rock) /\
  Forall (sized (length pressures)) ms /\
  forall scheme res,
    average_moduli garbage ms scheme = Ok res ->
    sized (length pressures) res /\
    exists mat_vp mat_vs mat_vphi,
      compute_velocities garbage res = Ok (mat_vp, mat_vs, mat_vphi) /\
      length mat_vp = length pressures /\
      length mat_vs = length pressures /\
      length mat_vphi = length pressures.
Proof.
  intros Hcalc.
  destruct (calculate_moduli_sized garbage rock rock' pressures temperatures
              ms Hcalc) as [Hlen Hms].
  repeat (split; [assumption|]).
  intros scheme res Havg.
  destruct (average_moduli_sized garbage ms scheme res Havg)
    as (m0 & Hm0 & Hres).
  assert (Hn : length (V m0) = length pressures).
  { pose proof (Forall_lookup_1 _ _ _ _ Hms Hm0) as (HV & _). exact HV. }
  rewrite Hn in Hres. split; [assumption|].
  destruct (compute_velocities_formula garbage res (length pressures) Hres)
    as (mat_vp & mat_vs & mat_vphi & Hrun & Hvp & Hvs & Hvphi & _).
  exists mat_vp, mat_vs, mat_vphi. auto.
Qed.

(** The hypothesis of [records_keep_one_length] at [two_phase_rock]. *)
Lemma records_keep_one_length_witness :
  exists ms,
    calculate_moduli NaN two_phase_rock [Fin 25e9] [Fin 2000] =
      Ok (two_phase_rock, ms) /\
    length ms = 2 /\
    Forall (sized 1) ms /\
    exists res, average_moduli NaN ms voigt = Ok res /\ sized 1 res.
Proof.
  assert (Hcalc :
    calculate_moduli NaN two_phase_rock [Fin 25e9] [Fin 2000] =
      Ok (two_phase_rock, two_phase_moduli)).
  { apply (calculate_moduli_two_phases NaN
             (mk_frozen 1e-5 (4000 * 1e-5) 200e9 100e9)
             (mk_frozen 2e-5 (3000 * 2e-5) 100e9 50e9) (Fin 25e9) (Fin 2000)
             0.5 0.5 1e-5 2e-5 (4000 * 1e-5) (3000 * 2e-5)
             200e9 100e9 100e9 50e9);
      [reflexivity | repeat split | repeat split | lra | lra]. }
  destruct (records_keep_one_length NaN two_phase_rock two_phase_rock
              [Fin 25e9] [Fin 2000] two_phase_moduli Hcalc)
    as (Hlen & Hms & Hbulk).
  exists two_phase_moduli. repeat (split; [assumption|]).
  eexists. split; [reflexivity|].
  refine (proj1 (Hbulk voigt _ _)). reflexivity.
Defined.

(** ** A rock without phases *)

(** The claim C7 fails: on a rock without phases [calculate_moduli]
    returns the empty list; it does not raise. *)
Lemma no_phases_returns_empty_list :
  calculate_moduli (Fin 0) empty_rock [Fin 25e9] [Fin 2000] = Ok (empty_rock, [])
  /\ ~ raises (calculate_moduli (Fin 0) empty_rock [Fin 25e9] [Fin 2000]).
Proof.
  assert (Hrun : calculate_moduli (Fin 0) empty_rock [Fin 25e9] [Fin 2000] =
                   Ok (empty_rock, [])) by reflexivity.
  split; [exact Hrun|]. intros [e He]. congruence.
Qed.

(** C7, amended. On a rock whose phase list is empty, when [temperatures]
    has at least as many entries as [pressures] and the rock's
    [set_state] returns at every state, [calculate_moduli] returns the
    empty list of records. *)
Theorem calculate_moduli_no_phases {M} `{Mineral M} `{Composite M}
    (garbage : float) (rock : composite M) (pressures temperatures : array) :
  phases rock = [] ->
  length pressures <= length temperatures ->
  (forall r p t, returns (set_state r p t)) ->
  exists rock', calculate_moduli garbage rock pressures temperatures =
                  Ok (rock', []).
Proof.
  intros Hph Hlen Hset. unfold calculate_moduli, for_range. rewrite Hph. simpl.
  destruct (for_loop_total (fun _ st => st.2 = [])
              (calculate_point pressures temperatures) (length pressures) 0
              (rock, [])) as ([rock' ms] & Hrun & Hms).
  - reflexivity.
  - intros i [r ms] [_ Hi] Hnil. simpl in *. subst ms.
    destruct (getitem_lt pressures i) as (p & -> & _); [lia|].
    destruct (getitem_lt temperatures i) as (t & -> & _); [lia|].
    destruct (Hset r p t) as [r' Hr']. simpl. rewrite Hr'. simpl.
    eexists. split; reflexivity.
  - simpl in Hms. subst ms. exists rock'. exact Hrun.
Qed.

(** With fewer temperatures than pressures the read [temperatures[idx]]
    goes out of range. *)
Lemma calculate_moduli_short_temperatures {M} `{Mineral M} `{Composite M}
    (garbage : float) (rock : composite M) (pressures temperatures : array) :
  phases rock = [] ->
  length temperatures < length pressures ->
  (forall r p t, returns (set_state r p t)) ->
  calculate_moduli garbage rock pressures temperatures = Raise IndexError.
Proof.
  intros Hph Hlen Hset. unfold calculate_moduli, for_range. rewrite Hph. simpl.
  apply (for_loop_raises_at (fun _ st => st.2 = []) _ _ 0 _
           (length temperatures)).
  - lia.
  - reflexivity.
  - intros i [r ms] [_ Hi] Hnil. simpl in *. subst ms.
    destruct (getitem_lt pressures i) as (p & -> & _); [lia|].
    destruct (getitem_lt temperatures i) as (t & -> & _); [lia|].
    destruct (Hset r p t) as [r' Hr']. simpl. rewrite Hr'. simpl.
    eexists. split; reflexivity.
  - intros [r ms] _. simpl.
    destruct (getitem_lt pressures (length temperatures)) as (p & -> & _);
      [lia|].
    simpl. by rewrite getitem_ge.
Qed.

(** The hypotheses of [calculate_moduli_no_phases] at [empty_rock]. *)
Lemma calculate_moduli_no_phases_witness :
  phases empty_rock = [] /\
  exists rock', calculate_moduli NaN empty_rock [Fin 25e9; Fin 30e9]
                  [Fin 2000; Fin 2100; Fin 2200] = Ok (rock', []).
Proof.
  split; [reflexivity|].
  apply (calculate_moduli_no_phases NaN empty_rock [Fin 25e9; Fin 30e9]
           [Fin 2000; Fin 2100; Fin 2200]).
  - reflexivity.
  - simpl. lia.
  - intros r p t. exists r. reflexivity.
Defined.

(** ** The attenuation corrector *)

Lemma for_loop_ext {St} (body body' : nat -> St -> result St)
    (count start : nat) (s : St) :
  (forall i t, start <= i < start + count -> body i t = body' i t) ->
  for_loop body start count s = for_loop body' start count s.
Proof.
  revert start s. induction count as [|count IH]; intros start s Hext.
  - reflexivity.
  - simpl. rewrite Hext by lia. destruct (body' start s) as [t|e]; simpl.
    + apply IH. intros i u Hi. apply Hext. lia.
    + reflexivity.
Qed.

Lemma getitem_take {A} (a : list A) (n i : nat) :
  i < n -> getitem (take n a) i = getitem a i.
Proof. intros Hi. unfold getitem. by rewrite lookup_take_lt. Qed.

Lemma attenuation_point_step (correction : attenuation_model)
    (v_p v_s v_phi : array) (Qs Qphi : float) (i : nat)
    (ret_v_p ret_v_s ret_v_phi : array) (p s phi p' s' phi' : float) :
  v_p !! i = Some p -> v_s !! i = Some s -> v_phi !! i = Some phi ->
  correction p s phi Qs Qphi = Ok (p', s', phi') ->
  i < length ret_v_p -> i < length ret_v_s -> i < length ret_v_phi ->
  attenuation_point correction v_p v_s v_phi Qs Qphi i
      (ret_v_p, ret_v_s, ret_v_phi) =
    Ok (<[i:=p']> ret_v_p, <[i:=s']> ret_v_s, <[i:=phi']> ret_v_phi).
Proof.
  intros Hp Hs Hphi Hcorr Hlp Hls Hlphi. unfold attenuation_point.
  apply getitem_Ok in Hp, Hs, Hphi. rewrite Hp, Hs, Hphi. simpl.
  rewrite Hcorr. simpl. rewrite !setitem_lt by assumption. reflexivity.
Qed.

(** The claim C8 fails: a [v_s] longer than [v_p] is accepted, and its
    extra entry is dropped without an error. *)
Lemma longer_v_s_is_truncated :
  apply_attenuation_correction no_attenuation
    [Fin 1] [Fin 2; Fin 3] [Fin 4] (Fin 300) (Fin 1000) =
    Ok ([Fin 1], [Fin 2], [Fin 4]) /\
  ~ raises (apply_attenuation_correction no_attenuation
              [Fin 1] [Fin 2; Fin 3] [Fin 4] (Fin 300) (Fin 1000)).
Proof.
  assert (Hrun : apply_attenuation_correction no_attenuation
                   [Fin 1] [Fin 2; Fin 3] [Fin 4] (Fin 300) (Fin 1000) =
                   Ok ([Fin 1], [Fin 2], [Fin 4])) by reflexivity.
  split; [exact Hrun|]. intros [e He]. congruence.
Qed.

(** C8, amended. [apply_attenuation_correction] compares no lengths.
    When [v_s] or [v_phi] is shorter than [v_p] the call raises, with the
    [IndexError] of the read out of range when the correction function
    returns at every point.  When both
    are at least as long as [v_p] the call is the call on [v_s] and [v_phi]
    cut down to [len(v_p)]; with a correction function that returns, it
    returns three arrays of length [len(v_p)] holding the corrected values
    index by index. *)
Theorem attenuation_correction_lengths (correction : attenuation_model)
    (v_p v_s v_phi : array) (Qs Qphi : float) :
  (length v_s < length v_p \/ length v_phi < length v_p ->
   raises (apply_attenuation_correction correction v_p v_s v_phi Qs Qphi) /\
   ((forall p s phi, returns (correction p s phi Qs Qphi)) ->
    apply_attenuation_correction correction v_p v_s v_phi Qs Qphi =
      Raise IndexError)) /\
  (length v_p <= length v_s -> length v_p <= length v_phi ->
   apply_attenuation_correction correction v_p v_s v_phi Qs Qphi =
     apply_attenuation_correction correction v_p
       (take (length v_p) v_s) (take (length v_p) v_phi) Qs Qphi /\
   ((forall p s phi, returns (correction p s phi Qs Qphi)) ->
    exists ret_v_p ret_v_s ret_v_phi,
      apply_attenuation_correction correction v_p v_s v_phi Qs Qphi =
        Ok (ret_v_p, ret_v_s, ret_v_phi) /\
      length ret_v_p = length v_p /\ length ret_v_s = length v_p /\
      length ret_v_phi = length v_p /\
      forall i p s phi p' s' phi',
        v_p !! i = Some p -> v_s !! i = Some s -> v_phi !! i = Some phi ->
        correction p s phi Qs Qphi = Ok (p', s', phi') ->
        ret_v_p !! i = Some p' /\ ret_v_s !! i = Some s' /\
        ret_v_phi !! i = Some phi')).
Proof.
  set (n := length v_p). split.
  - intros Hshort. split.
    { unfold apply_attenuation_correction, for_range. fold n.
      destruct Hshort as [Hs | Hphi].
      - apply (for_loop_raises _ n 0 _ (length v_s)); [lia|].
        intros [[a b] c]. unfold attenuation_point.
        destruct (getitem v_p (length v_s)) as [p|e]; [|by exists e].
        simpl. rewrite (getitem_ge v_s) by lia. by exists IndexError.
      - apply (for_loop_raises _ n 0 _ (length v_phi)); [lia|].
        intros [[a b] c]. unfold attenuation_point.
        destruct (getitem v_p (length v_phi)) as [p|e]; [|by exists e].
        simpl. destruct (getitem v_s (length v_phi)) as [s|e]; [|by exists e].
        simpl. rewrite (getitem_ge v_phi) by lia. by exists IndexError. }
    intros Htotal. unfold apply_attenuation_correction, for_range. fold n.
    set (k := min (length v_s) (length v_phi)).
    apply (for_loop_raises_at
             (fun _ (st : array * array * array) =>
                length st.1.1 = n /\ length st.1.2 = n /\ length st.2 = n)
             _ n 0 _ k).
    + lia.
    + simpl. by rewrite !length_np_zeros.
    + intros i [[rp rs] rphi] [_ Hi] (Hlp & Hls & Hlphi). simpl in *.
      destruct (lookup_lt_is_Some_2 v_p i) as [p Hp]; [lia|].
      destruct (lookup_lt_is_Some_2 v_s i) as [s Hs']; [lia|].
      destruct (lookup_lt_is_Some_2 v_phi i) as [phi Hphi']; [lia|].
      destruct (Htotal p s phi) as [[[p' s'] phi'] Hcorr].
      eexists. split.
      { apply (attenuation_point_step correction v_p v_s v_phi Qs Qphi i
                 rp rs rphi p s phi p' s' phi'); try assumption; lia. }
      simpl. by rewrite !length_insert.
    + intros [[rp rs] rphi] _. unfold attenuation_point.
      destruct (getitem_lt v_p k) as (p & -> & _); [lia|]. simpl.
      destruct (decide (length v_s <= k)) as [Hle|Hgt].
      * by rewrite (getitem_ge v_s).
      * destruct (getitem_lt v_s k) as (s & -> & _); [lia|]. simpl.
        rewrite (getitem_ge v_phi) by lia. reflexivity.
  - intros Hs Hphi. split.
    + unfold apply_attenuation_correction, for_range. fold n.
      apply for_loop_ext. intros i t [_ Hi]. simpl in Hi.
      unfold attenuation_point. by rewrite !getitem_take.
    + intros Htotal.
      pose (Inv := fun (i : nat) (st : array * array * array) =>
        let '(rp, rs, rphi) := st in
        (length rp = n /\ length rs = n /\ length rphi = n) /\
        forall j p s phi p' s' phi', j < i ->
          v_p !! j = Some p -> v_s !! j = Some s -> v_phi !! j = Some phi ->
          correction p s phi Qs Qphi = Ok (p', s', phi') ->
          rp !! j = Some p' /\ rs !! j = Some s' /\ rphi !! j = Some phi').
      destruct (for_loop_total Inv
                  (attenuation_point correction v_p v_s v_phi Qs Qphi) n 0
                  (np_zeros n, np_zeros n, np_zeros n))
        as ([[rp rs] rphi] & Hrun & (Hlp & Hls & Hlphi) & Hval).
      * simpl. rewrite !length_np_zeros. split; [auto | intros; lia].
      * intros i [[rp rs] rphi] [_ Hi] [(Hlp & Hls & Hlphi) Hprev].
        simpl in Hi.
        destruct (lookup_lt_is_Some_2 v_p i) as [p Hp]; [lia|].
        destruct (lookup_lt_is_Some_2 v_s i) as [s Hs']; [lia|].
        destruct (lookup_lt_is_Some_2 v_phi i) as [phi Hphi']; [lia|].
        destruct (Htotal p s phi) as [[[p' s'] phi'] Hcorr].
        eexists. split.
        { apply (attenuation_point_step correction v_p v_s v_phi Qs Qphi i
                   rp rs rphi p s phi p' s' phi'); try assumption; lia. }
        simpl. rewrite !length_insert. split; [auto|].
        intros j q r f q' r' f' Hj Hq Hr Hf Hc.
        destruct (decide (j = i)) as [->|Hji].
        -- rewrite !list_lookup_insert_eq by lia.
           assert (q = p) by congruence. assert (r = s) by congruence.
           assert (f = phi) by congruence. subst q r f.
           rewrite Hcorr in Hc. injection Hc as <- <- <-. auto.
        -- rewrite !list_lookup_insert_ne by lia.
           apply (Hprev j q r f q' r' f'); try assumption. lia.
      * exists rp, rs, rphi.
        unfold apply_attenuation_correction, for_range. fold n.
        split; [exact Hrun|]. repeat (split; [assumption|]).
        intros i p s phi p' s' phi' Hp Hs' Hphi' Hcorr.
        apply (Hval i p s phi p' s' phi'); try assumption.
        apply lookup_lt_Some in Hp. exact Hp.
Qed.

(** [attenuation_correction_lengths] at a [v_s] too short and at a [v_s]
    too long. *)
Lemma attenuation_correction_lengths_witness :
  raises (apply_attenuation_correction no_attenuation
            [Fin 1; Fin 2] [Fin 3] [Fin 4; Fin 5] (Fin 300) (Fin 1000)) /\
  apply_attenuation_correction no_attenuation
    [Fin 1] [Fin 2; Fin 3] [Fin 4] (Fin 300) (Fin 1000) =
    apply_attenuation_correction no_attenuation
      [Fin 1] [Fin 2] [Fin 4] (Fin 300) (Fin 1000).
Proof.
  split.
  - apply (attenuation_correction_lengths no_attenuation
             [Fin 1; Fin 2] [Fin 3] [Fin 4; Fin 5] (Fin 300) (Fin 1000)).
    left. simpl. lia.
  - apply (attenuation_correction_lengths no_attenuation
             [Fin 1] [Fin 2; Fin 3] [Fin 4] (Fin 300) (Fin 1000));
      simpl; lia.
Defined.

(** ** Arrays of finite numbers *)

Lemma foldl_fadd_Fin (acc : R) (l : list R) :
  foldl fadd (Fin acc) (Fin <$> l) = Fin (acc + Rsum l).
Proof.
  revert acc. induction l as [|a l IH]; intros acc; simpl.
  - f_equal. lra.
  - rewrite IH. f_equal. lra.
Qed.

Lemma np_sum_Fin (l : list R) : np_sum (Fin <$> l) = Fin (Rsum l).
Proof. unfold np_sum. rewrite foldl_fadd_Fin. f_equal. lra. Qed.

Lemma zip_with_Fin (op : float -> float -> float) (rop : R -> R -> R)
    (a b : list R) :
  (forall u v, op (Fin u) (Fin v) = Fin (rop u v)) ->
  zip_with op (Fin <$> a) (Fin <$> b) = Fin <$> zip_with rop a b.
Proof.
  intros Hop. revert b. induction a as [|u a IH]; intros [|v b]; simpl; try done.
  by rewrite Hop, IH.
Qed.

Lemma removelast_fmap {A B} (f : A -> B) (l : list A) :
  removelast (f <$> l) = f <$> removelast l.
Proof.
  induction l as [|a [|b l] IH]; try reflexivity.
  change (f a :: removelast (f <$> b :: l) = f a :: (f <$> removelast (b :: l))).
  by rewrite IH.
Qed.

Lemma length_removelast {A} (l : list A) :
  length (removelast l) = pred (length l).
Proof.
  induction l as [|a [|b l] IH]; try reflexivity.
  change (S (length (removelast (b :: l))) = S (length l)).
  by rewrite IH.
Qed.

Lemma length_tail {A} (l : list A) : length (tail l) = pred (length l).
Proof. by destruct l. Qed.

Lemma np_binop_same_length (op : float -> float -> float) (a b : array) :
  length a = length b -> np_binop op a b = Ok (zip_with op a b).
Proof.
  intros Hlen. unfold np_binop.
  destruct (decide (length a = length b)); [reflexivity | contradiction].
Qed.

Lemma fmap_half_Fin (l : list R) :
  map (fun t => (t / Fin 2)%fl) (Fin <$> l) = Fin <$> map (fun t => (t / 2)%R) l.
Proof.
  induction l as [|a l IH]; [reflexivity|].
  change ((Fin a / Fin 2)%fl :: map (fun t => (t / Fin 2)%fl) (Fin <$> l) =
          Fin (a / 2) :: (Fin <$> map (fun t => (t / 2)%R) l)).
  rewrite IH, fdiv_Fin by lra. reflexivity.
Qed.

(** ** The L2 scorer *)

Lemma trapezoid_sum (x y : list R) :
  length x = length y ->
  Rsum (map (fun t => (t / 2)%R)
          (zip_with Rmult (zip_with Rminus (tail x) (removelast x))
             (zip_with Rplus (tail y) (removelast y)))) =
  trapezoid x y.
Proof.
  revert y. induction x as [|x0 x' IH]; intros [|y0 y'] Hlen; try done.
  destruct x' as [|x1 x''], y' as [|y1 y'']; try done.
  specialize (IH (y1 :: y'')). simpl in Hlen.
  change (Rsum (map (fun t => (t / 2)%R)
            (zip_with Rmult
               ((x1 - x0)%R :: zip_with Rminus x'' (removelast (x1 :: x'')))
               ((y1 + y0)%R :: zip_with Rplus y'' (removelast (y1 :: y''))))) =
          ((x1 - x0) * (y1 + y0) / 2 + trapezoid (x1 :: x'') (y1 :: y''))%R).
  rewrite <- IH by (simpl; lia). reflexivity.
Qed.

(** numpy's [trapz] on finite samples is the trapezoidal rule. *)
Lemma trapz_Fin (x y : list R) :
  length x = length y ->
  trapz (Fin <$> y) (Fin <$> x) = Ok (Fin (trapezoid x y)).
Proof.
  intros Hlen. unfold trapz, np_diff.
  rewrite <- !fmap_tail, !removelast_fmap.
  rewrite (zip_with_Fin fsub Rminus) by reflexivity.
  rewrite (zip_with_Fin fadd Rplus) by reflexivity.
  rewrite np_binop_same_length.
  2:{ rewrite !length_fmap, !length_zip_with, !length_tail, !length_removelast.
      lia. }
  simpl. rewrite (zip_with_Fin fmul Rmult) by reflexivity.
  rewrite fmap_half_Fin, np_sum_Fin, trapezoid_sum by assumption.
  reflexivity.
Qed.

Lemma squared_difference_zip (a b : list R) :
  zip_with Rmult (zip_with Rminus a b) (zip_with Rminus a b) =
  squared_difference a b.
Proof.
  revert b. induction a as [|u a IH]; intros [|v b]; simpl; try done.
  by rewrite IH.
Qed.

Lemma squared_difference_same (a : list R) :
  Forall (fun v => v = 0%R) (squared_difference a a).
Proof.
  induction a as [|u a IH]; simpl; constructor; [lra | assumption].
Qed.

Lemma length_squared_difference (a b : list R) :
  length a = length b -> length (squared_difference a b) = length a.
Proof. intros Hlen. unfold squared_difference. rewrite length_zip_with. lia. Qed.

Lemma trapezoid_zero (x y : list R) :
  Forall (fun v => v = 0%R) y -> trapezoid x y = 0%R.
Proof.
  intros Hy. revert x. induction Hy as [|y0 y' Hy0 Hy' IH]; intros [|x0 x'];
    try reflexivity.
  destruct x' as [|x1 x''], y' as [|y1 y'']; try reflexivity.
  change (((x1 - x0) * (y1 + y0) / 2 + trapezoid (x1 :: x'') (y1 :: y''))%R = 0%R).
  rewrite IH. apply Forall_cons in Hy' as [-> _]. subst y0. lra.
Qed.

(** [l2] on finite profiles aligned with a non-empty depth axis. *)
Lemma l2_Fin (x a b : list R) :
  length a = length x -> length b = length x -> x <> [] ->
  l2 (Fin <$> x) (Fin <$> a) (Fin <$> b) =
    if Rlt_dec 0 (depth_span x) then Ok (Fin (l2_misfit x a b))
    else Raise AssertionError.
Proof.
  intros Ha Hb Hx. unfold l2.
  rewrite np_binop_same_length by (rewrite !length_fmap; lia).
  rewrite (zip_with_Fin fsub Rminus) by reflexivity. simpl.
  rewrite np_binop_same_length by reflexivity.
  rewrite (zip_with_Fin fmul Rmult) by reflexivity.
  rewrite squared_difference_zip. simpl.
  unfold getitem_last, getitem. rewrite fmap_last, list_lookup_fmap.
  rewrite <- head_lookup.
  destruct (last x) as [xl|] eqn:Hlast.
  2:{ apply last_None in Hlast. contradiction. }
  destruct (head x) as [x0|] eqn:Hhead.
  2:{ apply head_None in Hhead. contradiction. }
  simpl.
  assert (Hspan : depth_span x = (xl - x0)%R).
  { unfold depth_span. by rewrite Hlast, Hhead. }
  change (xl + - x0)%R with (xl - x0)%R. rewrite <- Hspan.
  unfold fgt. destruct (Rlt_dec 0 (depth_span x)) as [Hpos|Hneg];
    [|reflexivity].
  rewrite trapz_Fin by (rewrite length_squared_difference; lia).
  simpl. rewrite fdiv_Fin by lra. reflexivity.
Qed.

Lemma l2_misfit_same (x a : list R) : l2_misfit x a a = 0%R.
Proof.
  unfold l2_misfit. rewrite trapezoid_zero by apply squared_difference_same.
  unfold Rdiv. apply Rmult_0_l.
Qed.

Lemma depth_span_nil : depth_span [] = 0%R.
Proof. unfold depth_span. simpl. lra. Qed.

(** C5. For a depth axis and profiles of its length, [compare_l2] returns
    for density, Vphi and Vs (in this order) the trapezoidal integral over
    depth of the squared difference between computed and observed, divided
    by [depth[-1] - depth[0]]; it raises when that span is not strictly
    positive (the failed [assert], or the [IndexError] of an empty axis);
    and on identical computed and observed profiles it returns [0] three
    times. *)
Theorem compare_l2_trapezoid
    (depth mat_vs mat_vphi mat_rho seis_vs seis_vphi seis_rho : list R) :
  length mat_vs = length depth -> length seis_vs = length depth ->
  length mat_vphi = length depth -> length seis_vphi = length depth ->
  length mat_rho = length depth -> length seis_rho = length depth ->
  ((0 < depth_span depth)%R ->
   compare_l2 (Fin <$> depth) (Fin <$> mat_vs) (Fin <$> mat_vphi)
     (Fin <$> mat_rho) (Fin <$> seis_vs) (Fin <$> seis_vphi)
     (Fin <$> seis_rho) =
     Ok (Fin (l2_misfit depth mat_rho seis_rho),
         Fin (l2_misfit depth mat_vphi seis_vphi),
         Fin (l2_misfit depth mat_vs seis_vs))) /\
  (~ (0 < depth_span depth)%R ->
   compare_l2 (Fin <$> depth) (Fin <$> mat_vs) (Fin <$> mat_vphi)
     (Fin <$> mat_rho) (Fin <$> seis_vs) (Fin <$> seis_vphi)
     (Fin <$> seis_rho) =
     match depth with
     | [] => Raise IndexError
     | _ => Raise AssertionError
     end) /\
  ((0 < depth_span depth)%R ->
   compare_l2 (Fin <$> depth) (Fin <$> mat_vs) (Fin <$> mat_vphi)
     (Fin <$> mat_rho) (Fin <$> mat_vs) (Fin <$> mat_vphi)
     (Fin <$> mat_rho) = Ok (Fin 0, Fin 0, Fin 0)).
Proof.
  intros Hvs Hsvs Hvphi Hsvphi Hrho Hsrho.
  destruct (decide (depth = [])) as [->|Hne].
  - rewrite depth_span_nil. repeat split; try (intros; lra).
    intros _. destruct mat_rho, seis_rho; try discriminate. reflexivity.
  - unfold compare_l2. rewrite !l2_Fin by assumption.
    destruct (Rlt_dec 0 (depth_span depth)) as [Hpos|Hneg].
    + repeat split; try (intros; contradiction).
      intros _. simpl. by rewrite !l2_misfit_same.
    + repeat split; try (intros; contradiction).
      intros _. destruct depth; [contradiction | reflexivity].
Qed.

(** The hypotheses of [compare_l2_trapezoid] at three profiles on a depth
    axis of span [3000]. *)
Lemma compare_l2_trapezoid_witness :
  (0 < depth_span depths)%R /\
  compare_l2 (Fin <$> depths) (Fin <$> profile) (Fin <$> profile)
    (Fin <$> profile) (Fin <$> observed) (Fin <$> observed)
    (Fin <$> observed) =
    Ok (Fin (l2_misfit depths profile observed),
        Fin (l2_misfit depths profile observed),
        Fin (l2_misfit depths profile observed)).
Proof.
  assert (Hspan : (0 < depth_span depths)%R).
  { unfold depth_span. simpl. lra. }
  split; [exact Hspan|].
  apply (compare_l2_trapezoid depths profile profile profile
           observed observed observed); try reflexivity.
  exact Hspan.
Defined.

(** ** The chi-factor scorer *)

(** The term of evaluation point [i] in [chi_factor]. *)
Lemma chi_point_step (calc obs err : array) (i : nat) (c o : float) :
  calc !! i = Some c -> obs !! i = Some o -> i < length err ->
  chi_point calc obs i err =
    Ok (<[i:=pow2 ((c - o) / (Fin 0.01 * np_mean obs))]> err).
Proof.
  intros Hc Ho Hi. unfold chi_point.
  apply getitem_Ok in Hc, Ho. rewrite Hc, Ho. simpl.
  by rewrite setitem_lt.
Qed.

(** [chi_factor] as a float formula, for any numbers: it needs [obs] to be
    at least as long as [calc] and reads no more of it, except through the
    mean. *)
Lemma chi_factor_formula (garbage : float) (calc obs : array) :
  length calc <= length obs ->
  chi_factor garbage calc obs =
    Ok (np_sum (zip_with
                  (fun c o => pow2 ((c - o) / (Fin 0.01 * np_mean obs)))
                  calc obs)
        / of_nat (length calc))%fl.
Proof.
  intros Hlen. set (n := length calc).
  set (term := fun c o : float => pow2 ((c - o) / (Fin 0.01 * np_mean obs))).
  pose (Inv := fun (i : nat) (err : array) =>
    length err = n /\
    forall j c o, j < i -> calc !! j = Some c -> obs !! j = Some o ->
      err !! j = Some (term c o)).
  destruct (for_loop_total Inv (chi_point calc obs) n 0 (np_ndarray garbage n))
    as (err & Hrun & Herr & Hval).
  - split; [apply length_np_ndarray | intros; lia].
  - intros i err [_ Hi] [Herr Hprev]. simpl in Hi.
    destruct (lookup_lt_is_Some_2 calc i) as [c Hc]; [unfold n in Hi; lia|].
    destruct (lookup_lt_is_Some_2 obs i) as [o Ho]; [unfold n in Hi; lia|].
    eexists. split; [apply (chi_point_step calc obs err i c o); auto; lia|].
    split; [by rewrite length_insert|].
    intros j c' o' Hj Hc' Ho'. destruct (decide (j = i)) as [->|Hji].
    + rewrite list_lookup_insert_eq by lia.
      replace c' with c by congruence. replace o' with o by congruence.
      reflexivity.
    + rewrite list_lookup_insert_ne by lia. apply Hprev; [lia | done..].
  - assert (Heq : err = zip_with term calc obs).
    { apply list_eq. intros j. destruct (decide (j < n)) as [Hj|Hj].
      - destruct (lookup_lt_is_Some_2 calc j) as [c Hc]; [unfold n in Hj; lia|].
        destruct (lookup_lt_is_Some_2 obs j) as [o Ho]; [unfold n in Hj; lia|].
        rewrite (Hval j c o) by (simpl; done || lia).
        symmetry. apply lookup_zip_with_Some. eauto.
      - rewrite !lookup_ge_None_2; [done | | lia].
        rewrite length_zip_with. unfold n in Hj. lia. }
    unfold chi_factor, for_range. fold n. rewrite Hrun. simpl.
    rewrite Herr, Heq. reflexivity.
Qed.

Lemma fdiv_Fin_zero_zero (a b : R) :
  a = 0%R -> b = 0%R -> (Fin a / Fin b)%fl = NaN.
Proof. intros -> ->. apply fdiv_zero_zero. Qed.

Lemma INR_length_nonzero {A} (l : list A) : l <> [] -> INR (length l) <> 0%R.
Proof.
  intros Hl. apply not_0_INR. destruct l; [contradiction | discriminate].
Qed.

Lemma np_mean_Fin (l : list R) : l <> [] -> np_mean (Fin <$> l) = Fin (Rmean l).
Proof.
  intros Hl. unfold np_mean, of_nat. rewrite np_sum_Fin, length_fmap.
  by rewrite fdiv_Fin by (by apply INR_length_nonzero).
Qed.

(** [chi_factor] on finite profiles whose observed mean is not zero. *)
Lemma chi_factor_Fin (garbage : float) (calc obs : list R) :
  length calc = length obs -> calc <> [] -> Rmean obs <> 0%R ->
  chi_factor garbage (Fin <$> calc) (Fin <$> obs) = Ok (Fin (chi_misfit calc obs)).
Proof.
  intros Hlen Hne Hmean.
  assert (Hobs : obs <> []) by (destruct calc, obs; done).
  rewrite chi_factor_formula by (rewrite !length_fmap; lia).
  rewrite np_mean_Fin by assumption.
  rewrite (zip_with_Fin _
             (fun c o => ((c - o) / (0.01 * Rmean obs)) ^ 2)%R).
  2:{ intros u v. change (Fin u - Fin v)%fl with (Fin (u - v)).
      change (Fin 0.01 * Fin (Rmean obs))%fl with (Fin (0.01 * Rmean obs)).
      rewrite fdiv_Fin by lra. simpl. f_equal. lra. }
  rewrite np_sum_Fin, length_fmap. unfold of_nat.
  rewrite fdiv_Fin by (by apply INR_length_nonzero). reflexivity.
Qed.

Lemma Rsum_zip_with_same (f : R -> R -> R) (a : list R) :
  (forall u, f u u = 0%R) -> Rsum (zip_with f a a) = 0%R.
Proof.
  intros Hf. induction a as [|u a IH]; [reflexivity|].
  change (f u u + Rsum (zip_with f a a) = 0)%R.
  rewrite Hf, IH. lra.
Qed.

Lemma chi_misfit_same (a : list R) : chi_misfit a a = 0%R.
Proof.
  unfold chi_misfit. rewrite Rsum_zip_with_same.
  - unfold Rdiv. apply Rmult_0_l.
  - intros u. unfold Rminus. rewrite Rplus_opp_r. unfold Rdiv.
    rewrite Rmult_0_l. simpl. lra.
Qed.

Lemma foldl_fadd_NaN (l : array) : foldl fadd NaN l = NaN.
Proof. induction l as [|x l IH]; [reflexivity | exact IH]. Qed.

(** With an observed mean of zero every term is [0/0]. *)
Lemma chi_factor_zero_mean (garbage : float) (obs : list R) :
  obs <> [] -> Rmean obs = 0%R ->
  chi_factor garbage (Fin <$> obs) (Fin <$> obs) = Ok NaN.
Proof.
  intros Hne Hmean. rewrite chi_factor_formula by reflexivity.
  rewrite np_mean_Fin, Hmean by assumption.
  destruct obs as [|u obs]; [contradiction|].
  change (Fin <$> u :: obs) with (Fin u :: (Fin <$> obs)).
  cbn [zip_with]. change (Fin u - Fin u)%fl with (Fin (u - u)).
  change (Fin 0.01 * Fin 0)%fl with (Fin (0.01 * 0)).
  rewrite fdiv_Fin_zero_zero by lra.
  unfold np_sum. cbn [foldl pow2 fadd]. rewrite foldl_fadd_NaN.
  reflexivity.
Qed.

(** The claim C6 fails: on identical profiles whose observed mean is zero
    the chi-factor scorer returns NaN three times, not [0]. *)
Lemma zero_mean_gives_nan :
  compare_chifactor (Fin 0) zero_profile zero_profile zero_profile
    zero_profile zero_profile zero_profile = Ok (NaN, NaN, NaN) /\
  compare_chifactor (Fin 0) zero_profile zero_profile zero_profile
    zero_profile zero_profile zero_profile <> Ok (Fin 0, Fin 0, Fin 0).
Proof.
  assert (Hchi : chi_factor (Fin 0) zero_profile zero_profile = Ok NaN).
  { apply (chi_factor_zero_mean (Fin 0) [0; 0]%R); [discriminate|].
    unfold Rmean, Rsum. simpl. lra. }
  assert (Hrun : compare_chifactor (Fin 0) zero_profile zero_profile zero_profile
                   zero_profile zero_profile zero_profile = Ok (NaN, NaN, NaN)).
  { unfold compare_chifactor. rewrite Hchi. reflexivity. }
  split; [exact Hrun|]. rewrite Hrun. discriminate.
Qed.

(** C6, amended. For finite, non-empty computed and observed profiles of
    equal length whose observed means are not zero, [compare_chifactor]
    returns for density, Vphi and Vs (in this order, not summed) the mean
    over the points of [((calc[i] - obs[i]) / (0.01 * mean(obs)))^2]; on
    identical computed and observed profiles it returns [0] three times. *)
Theorem compare_chifactor_relative (garbage : float)
    (mat_vs mat_vphi mat_rho seis_vs seis_vphi seis_rho : list R) :
  length mat_vs = length seis_vs -> mat_vs <> [] -> Rmean seis_vs <> 0%R ->
  length mat_vphi = length seis_vphi -> mat_vphi <> [] ->
  Rmean seis_vphi <> 0%R ->
  length mat_rho = length seis_rho -> mat_rho <> [] -> Rmean seis_rho <> 0%R ->
  compare_chifactor garbage (Fin <$> mat_vs) (Fin <$> mat_vphi)
    (Fin <$> mat_rho) (Fin <$> seis_vs) (Fin <$> seis_vphi)
    (Fin <$> seis_rho) =
    Ok (Fin (chi_misfit mat_rho seis_rho),
        Fin (chi_misfit mat_vphi seis_vphi),
        Fin (chi_misfit mat_vs seis_vs)) /\
  compare_chifactor garbage (Fin <$> seis_vs) (Fin <$> seis_vphi)
    (Fin <$> seis_rho) (Fin <$> seis_vs) (Fin <$> seis_vphi)
    (Fin <$> seis_rho) = Ok (Fin 0, Fin 0, Fin 0).
Proof.
  intros Hvs Nvs Mvs Hvphi Nvphi Mvphi Hrho Nrho Mrho.
  assert (Ns : seis_vs <> []) by (destruct mat_vs, seis_vs; done).
  assert (Nphi : seis_vphi <> []) by (destruct mat_vphi, seis_vphi; done).
  assert (Nr : seis_rho <> []) by (destruct mat_rho, seis_rho; done).
  unfold compare_chifactor. split.
  - rewrite !chi_factor_Fin by assumption. reflexivity.
  - rewrite !chi_factor_Fin by done. simpl. by rewrite !chi_misfit_same.
Qed.

(** The hypotheses of [compare_chifactor_relative] at two profiles of
    mean [4500]. *)
Lemma compare_chifactor_relative_witness :
  Rmean observed <> 0%R /\
  compare_chifactor NaN (Fin <$> observed) (Fin <$> observed)
    (Fin <$> observed) (Fin <$> observed) (Fin <$> observed)
    (Fin <$> observed) = Ok (Fin 0, Fin 0, Fin 0).
Proof.
  assert (Hmean : Rmean observed <> 0%R).
  { unfold Rmean, Rsum, observed. simpl. lra. }
  split; [exact Hmean|].
  apply (compare_chifactor_relative NaN profile profile profile
           observed observed observed); try done.
Defined.

(** * Further properties of the code *)

(** ** Velocities *)



Lemma truncate_sized (n : nat) (m : elastic_properties) :
  covers n m -> sized n (truncate n m).
Proof.
  intros (HV & Hrho & HK & HG & Hfr).
  repeat split; simpl; by rewrite length_take_le.
Qed.

(** [compute_velocities] depends on [len(moduli.V)] and on the first
    that many entries of [K], [G] and [rho] only. *)
Lemma compute_velocities_ext (garbage : float) (m m' : elastic_properties) :
  length (V m) = length (V m') ->
  (forall i, i < length (V m) ->
     K m !! i = K m' !! i /\ G m !! i = G m' !! i /\ rho m !! i = rho m' !! i) ->
  compute_velocities garbage m = compute_velocities garbage m'.
Proof.
  intros Hlen Hrows. unfold compute_velocities, for_range. rewrite <- Hlen.
  rewrite (for_loop_ext (velocity_point m) (velocity_point m'));
    [reflexivity|].
  intros i [[mat_vs mat_vp] mat_vphi] [_ Hi].
  destruct (Hrows i Hi) as (HK & HG & Hrho).
  unfold velocity_point, getitem. by rewrite HK, HG, Hrho.
Qed.

(** The loop of [compute_velocities] as three elementwise maps. *)
Lemma compute_velocities_closed (garbage : float) (m : elastic_properties) :
  length (V m) <= length (K m) -> length (V m) <= length (G m) ->
  length (V m) <= length (rho m) ->
  compute_velocities garbage m = Ok (velocity_arrays m).
Proof.
  set (n := length (V m)). intros HK HG Hrho.
  set (m' := {| V := V m; rho := take n (rho m); K := take n (K m);
                G := take n (G m); fraction := V m |}).
  rewrite (compute_velocities_ext garbage m m'); [|reflexivity|].
  2:{ intros i Hi. simpl. by rewrite !lookup_take_lt. }
  destruct (compute_velocities_formula garbage m' n)
    as (mat_vp & mat_vs & mat_vphi & -> & Hvp & Hvs & Hvphi & Hval).
  { repeat split; simpl; try reflexivity; by rewrite length_take_le. }
  simpl in Hval.
  assert (Hrow : forall i, i < n -> exists k g r,
            take n (K m) !! i = Some k /\ take n (G m) !! i = Some g /\
            take n (rho m) !! i = Some r).
  { intros i Hi.
    destruct (lookup_lt_is_Some_2 (take n (K m)) i) as [k Hk];
      [rewrite length_take_le; lia|].
    destruct (lookup_lt_is_Some_2 (take n (G m)) i) as [g Hg];
      [rewrite length_take_le; lia|].
    destruct (lookup_lt_is_Some_2 (take n (rho m)) i) as [r Hr];
      [rewrite length_take_le; lia|].
    by exists k, g, r. }
  assert (Ep : mat_vp =
    zip_with (fun kg r => fsqrt ((kg.1 + Fin 4 / Fin 3 * kg.2) / r)%fl)
      (zip (take n (K m)) (take n (G m))) (take n (rho m))).
  { apply list_eq. intros i. destruct (decide (i < n)) as [Hi|Hi].
    - destruct (Hrow i Hi) as (k & g & r & Hk & Hg & Hr).
      destruct (Hval i k g r Hk Hg Hr) as (_ & -> & _).
      symmetry. apply lookup_zip_with_Some. exists (k, g), r.
      split; [reflexivity|]. split; [|assumption].
      apply lookup_zip_with_Some. eauto.
    - rewrite !lookup_ge_None_2; [done| |lia].
      rewrite !length_zip_with, !length_take. lia. }
  assert (Es : mat_vs =
    zip_with (fun g r => fsqrt (g / r)%fl) (take n (G m)) (take n (rho m))).
  { apply list_eq. intros i. destruct (decide (i < n)) as [Hi|Hi].
    - destruct (Hrow i Hi) as (k & g & r & Hk & Hg & Hr).
      destruct (Hval i k g r Hk Hg Hr) as (-> & _ & _).
      symmetry. apply lookup_zip_with_Some. eauto.
    - rewrite !lookup_ge_None_2; [done| |lia].
      rewrite !length_zip_with, !length_take. lia. }
  assert (Ephi : mat_vphi =
    zip_with (fun k r => fsqrt (k / r)%fl) (take n (K m)) (take n (rho m))).
  { apply list_eq. intros i. destruct (decide (i < n)) as [Hi|Hi].
    - destruct (Hrow i Hi) as (k & g & r & Hk & Hg & Hr).
      destruct (Hval i k g r Hk Hg Hr) as (_ & _ & ->).
      symmetry. apply lookup_zip_with_Some. eauto.
    - rewrite !lookup_ge_None_2; [done| |lia].
      rewrite !length_zip_with, !length_take. lia. }
  rewrite Ep, Es, Ephi. reflexivity.
Qed.

(** A record whose [K], [G] or [rho] is shorter than [V] makes a read go
    out of range. *)
Lemma compute_velocities_short (garbage : float) (m : elastic_properties) :
  length (K m) < length (V m) \/ length (G m) < length (V m) \/
    length (rho m) < length (V m) ->
  compute_velocities garbage m = Raise IndexError.
Proof.
  intros Hshort. set (n := length (V m)) in *.
  set (k := min (length (K m)) (min (length (G m)) (length (rho m)))).
  unfold compute_velocities, for_range. fold n.
  rewrite (for_loop_raises_at
             (fun _ (st : array * array * array) =>
                length st.1.1 = n /\ length st.1.2 = n /\ length st.2 = n)
             (velocity_point m) n 0 _ k IndexError); [reflexivity|..].
  - lia.
  - simpl. by rewrite !length_np_ndarray.
  - intros i [[mat_vs mat_vp] mat_vphi] [_ Hi] (Hvs & Hvp & Hvphi).
    simpl in *.
    destruct (lookup_lt_is_Some_2 (K m) i) as [kk Hk]; [lia|].
    destruct (lookup_lt_is_Some_2 (G m) i) as [g Hg]; [lia|].
    destruct (lookup_lt_is_Some_2 (rho m) i) as [r Hr]; [lia|].
    eexists. split.
    { apply (velocity_point_step m i _ _ _ kk g r); try assumption; lia. }
    simpl. by rewrite !length_insert.
  - intros [[mat_vs mat_vp] mat_vphi] (Hvs & Hvp & Hvphi). simpl in *.
    unfold velocity_point.
    destruct (decide (length (G m) <= k)) as [HG|HG].
    { by rewrite (getitem_ge (G m)). }
    destruct (getitem_lt (G m) k) as (g & -> & _); [lia|]. simpl.
    destruct (decide (length (rho m) <= k)) as [Hr|Hr].
    { by rewrite (getitem_ge (rho m)). }
    destruct (getitem_lt (rho m) k) as (r & -> & _); [lia|]. simpl.
    rewrite setitem_lt by lia. simpl.
    by rewrite (getitem_ge (K m)) by lia.
Qed.

(** X2. [compute_velocities] is sized by [len(moduli.V)]: when [K], [G]
    and [rho] have at least that many entries it returns the three
    elementwise maps [velocity_arrays] over the first [len(moduli.V)]
    entries (longer arrays are not an error); when one of them is shorter
    it raises [IndexError]. *)
Theorem compute_velocities_elementwise (garbage : float)
    (m : elastic_properties) :
  (length (V m) <= length (K m) -> length (V m) <= length (G m) ->
   length (V m) <= length (rho m) ->
   compute_velocities garbage m = Ok (velocity_arrays m)) /\
  (length (K m) < length (V m) \/ length (G m) < length (V m) \/
     length (rho m) < length (V m) ->
   compute_velocities garbage m = Raise IndexError).
Proof.
  split.
  - apply compute_velocities_closed.
  - apply compute_velocities_short.
Qed.

(** [compute_velocities_elementwise] at a record with a short [K]. *)
Lemma compute_velocities_elementwise_witness :
  compute_velocities NaN short_K_record = Raise IndexError.
Proof.
  apply (compute_velocities_elementwise NaN short_K_record).
  left. simpl. lia.
Defined.

(** ** More on the L2 scorer *)

Lemma squared_difference_comm (a b : list R) :
  squared_difference a b = squared_difference b a.
Proof.
  revert b. induction a as [|u a IH]; intros [|v b]; try reflexivity.
  unfold squared_difference in *. simpl. rewrite IH. f_equal. lra.
Qed.

Lemma squared_difference_nonneg (a b : list R) :
  Forall (fun v => (0 <= v)%R) (squared_difference a b).
Proof.
  revert b. induction a as [|u a IH]; intros [|v b]; try constructor.
  - exact (Rle_0_sqr (u - v)).
  - apply IH.
Qed.

Lemma trapezoid_nonneg (x y : list R) :
  nondecreasing x -> Forall (fun v => (0 <= v)%R) y ->
  (0 <= trapezoid x y)%R.
Proof.
  intros Hx Hy. revert x Hx.
  induction Hy as [|y0 y' Hy0 Hy' IH]; intros [|x0 x'] Hx;
    try (simpl; lra).
  destruct x' as [|x1 x''], y' as [|y1 y'']; try (simpl; lra).
  change (0 <= (x1 - x0) * (y1 + y0) / 2
               + trapezoid (x1 :: x'') (y1 :: y''))%R.
  destruct Hx as [Hle Hx']. specialize (IH (x1 :: x'') Hx').
  apply Forall_cons in Hy' as [Hy1 _]. nra.
Qed.

(** X3. On finite profiles aligned with the depth axis, [l2] does not
    depend on the order of the two profiles; and on a depth axis that never
    decreases and has a positive span its value is a finite number that is
    not negative. *)
Theorem l2_symmetric_nonnegative (x a b : list R) :
  length a = length x -> length b = length x ->
  l2 (Fin <$> x) (Fin <$> a) (Fin <$> b) =
    l2 (Fin <$> x) (Fin <$> b) (Fin <$> a) /\
  (nondecreasing x -> (0 < depth_span x)%R ->
   exists v, l2 (Fin <$> x) (Fin <$> a) (Fin <$> b) = Ok (Fin v) /\
             (0 <= v)%R).
Proof.
  intros Ha Hb. destruct (decide (x = [])) as [->|Hne].
  - destruct a, b; try discriminate. split; [reflexivity|].
    rewrite depth_span_nil. intros _ Hpos. lra.
  - rewrite !l2_Fin by assumption. unfold l2_misfit.
    rewrite (squared_difference_comm b a). split; [reflexivity|].
    intros Hx Hpos. destruct (Rlt_dec 0 (depth_span x)); [|contradiction].
    eexists. split; [reflexivity|].
    pose proof (trapezoid_nonneg x (squared_difference a b) Hx
                  (squared_difference_nonneg a b)) as Ht.
    assert (Hinv : (0 < / depth_span x)%R) by (by apply Rinv_0_lt_compat).
    unfold Rdiv. nra.
Qed.

(** The hypotheses of [l2_symmetric_nonnegative] at two profiles on an
    increasing depth axis. *)
Lemma l2_symmetric_nonnegative_witness :
  nondecreasing depths /\ (0 < depth_span depths)%R /\
  exists v, l2 (Fin <$> depths) (Fin <$> profile) (Fin <$> observed) =
              Ok (Fin v) /\ (0 <= v)%R.
Proof.
  assert (Hx : nondecreasing depths) by (simpl; lra).
  assert (Hspan : (0 < depth_span depths)%R).
  { unfold depth_span. simpl. lra. }
  repeat (split; [assumption|]).
  apply (l2_symmetric_nonnegative depths profile observed);
    [reflexivity | reflexivity | assumption..].
Defined.

Lemma np_binop_mismatch (op : float -> float -> float) (a b : array) :
  length a <> length b -> length a <> 1 -> length b <> 1 ->
  np_binop op a b = Raise ValueError.
Proof.
  intros Hab Ha Hb. unfold np_binop.
  destruct (decide (length a = length b)) as [|_]; [contradiction|].
  destruct a as [|u [|u' a]], b as [|v [|v' b]]; simpl in *;
    try reflexivity; lia.
Qed.

Lemma zip_with_replicate_r (op : float -> float -> float) (a : array)
    (c : float) :
  zip_with op a (replicate (length a) c) = map (fun u => op u c) a.
Proof. induction a as [|u a IH]; simpl; [reflexivity | by rewrite IH]. Qed.

Lemma np_binop_scalar_r (op : float -> float -> float) (a : array)
    (c : float) :
  np_binop op a [c] = np_binop op a (replicate (length a) c).
Proof.
  rewrite (np_binop_same_length op a (replicate (length a) c))
    by (by rewrite length_replicate).
  rewrite zip_with_replicate_r. unfold np_binop.
  destruct (decide (length a = length [c])) as [Heq|Hne].
  - destruct a as [|u [|u' a]]; try discriminate. reflexivity.
  - destruct a as [|u [|u' a]]; reflexivity.
Qed.

(** X4. The shape behaviour of [l2] is numpy's.  Two profiles of different
    lengths, neither of length one, raise [ValueError] at the subtraction,
    whatever the depth axis; a one-element observed profile is broadcast
    (the call is the call on that value repeated); with equal-length
    profiles an empty depth axis raises [IndexError]; and a depth axis
    whose length fits neither the profiles nor broadcasting raises
    [ValueError] in [trapz], after the [assert] on the span. *)
Theorem l2_shapes (x funca funcb : array) (c : float) :
  (length funca <> length funcb -> length funca <> 1 -> length funcb <> 1 ->
   l2 x funca funcb = Raise ValueError) /\
  l2 x funca [c] = l2 x funca (replicate (length funca) c) /\
  (length funca = length funcb -> l2 [] funca funcb = Raise IndexError) /\
  (length funca = length funcb -> x <> [] ->
   pred (length x) <> pred (length funca) ->
   length x <> 2 -> length funca <> 2 ->
   raises (l2 x funca funcb) /\
   forall x_last x_0,
     last x = Some x_last -> head x = Some x_0 ->
     l2 x funca funcb =
       if fgt (x_last - x_0) (Fin 0) then Raise ValueError
       else Raise AssertionError).
Proof.
  split; [|split; [|split]].
  - intros Hab Ha Hb. unfold l2. by rewrite np_binop_mismatch.
  - unfold l2. by rewrite np_binop_scalar_r.
  - intros Hab. unfold l2. rewrite np_binop_same_length by assumption.
    simpl. rewrite np_binop_same_length by reflexivity. reflexivity.
  - intros Hab Hne Hpred Hx2 Ha2.
    assert (Hrun : forall x_last x_0,
      last x = Some x_last -> head x = Some x_0 ->
      l2 x funca funcb =
        if fgt (x_last - x_0) (Fin 0) then Raise ValueError
        else Raise AssertionError).
    { intros x_last x_0 Hlast Hhead.
      unfold l2. rewrite np_binop_same_length by assumption. simpl.
      rewrite np_binop_same_length by reflexivity. simpl.
      unfold getitem_last, getitem.
      rewrite Hlast, <- head_lookup, Hhead. simpl.
      destruct (fgt (x_last - x_0) (Fin 0)); [|reflexivity].
      unfold trapz. rewrite np_binop_mismatch; [reflexivity|..];
        unfold np_diff;
        repeat (rewrite length_zip_with || rewrite length_tail
                || rewrite length_removelast); lia. }
    split; [|exact Hrun].
    destruct (last x) as [xl|] eqn:Hlast.
    2:{ apply last_None in Hlast. contradiction. }
    destruct (head x) as [x0|] eqn:Hhead.
    2:{ apply head_None in Hhead. contradiction. }
    rewrite (Hrun xl x0) by reflexivity.
    destruct (fgt (xl - x0) (Fin 0)); by eexists.
Qed.

(** ** More on the chi-factor scorer *)

Lemma chi_factor_short_obs (garbage : float) (calc obs : array) :
  length obs < length calc -> chi_factor garbage calc obs = Raise IndexError.
Proof.
  intros Hlen. unfold chi_factor, for_range.
  rewrite (for_loop_raises_at
             (fun _ (err : array) => length err = length calc)
             (chi_point calc obs) (length calc) 0 _ (length obs) IndexError);
    [reflexivity|..].
  - lia.
  - apply length_np_ndarray.
  - intros i err [_ Hi] Herr.
    destruct (lookup_lt_is_Some_2 calc i) as [c Hc]; [lia|].
    destruct (lookup_lt_is_Some_2 obs i) as [o Ho]; [lia|].
    eexists. split; [apply (chi_point_step calc obs err i c o); auto; lia|].
    by rewrite length_insert.
  - intros err _. unfold chi_point.
    destruct (getitem_lt calc (length obs)) as (c & -> & _); [lia|].
    simpl. by rewrite getitem_ge.
Qed.

(** X5. The edges of [chi_factor].  It needs [obs] to be at least as long
    as [calc]: a shorter [obs] raises [IndexError]; a longer one is not an
    error, its extra entries enter the result through [np.mean(obs)] only.
    On an empty [calc] it returns NaN (the quotient [0/0]), it does not
    raise. *)
Theorem chi_factor_edges (garbage : float) (calc obs : array) :
  (length obs < length calc ->
   chi_factor garbage calc obs = Raise IndexError) /\
  (length calc <= length obs ->
   chi_factor garbage calc obs =
     Ok (np_sum (zip_with
                   (fun c o => pow2 ((c - o) / (Fin 0.01 * np_mean obs)))
                   calc (take (length calc) obs))
         / of_nat (length calc))%fl) /\
  chi_factor garbage [] obs = Ok NaN.
Proof.
  split; [apply chi_factor_short_obs|]. split.
  - intros Hlen. rewrite chi_factor_formula by assumption.
    by rewrite zip_with_take_r.
  - rewrite chi_factor_formula by (simpl; lia). simpl.
    unfold np_sum, of_nat. simpl. by rewrite fdiv_zero_zero.
Qed.








(** ** More on the bulk averager *)

Lemma for_loop_Raise_inv {St} (body : nat -> St -> result St)
    (count start : nat) (s : St) (e : exn) :
  for_loop body start count s = Raise e ->
  exists i t, start <= i < start + count /\ body i t = Raise e.
Proof.
  revert start s. induction count as [|count IH]; intros start s Hrun.
  - discriminate.
  - simpl in Hrun. destruct (body start s) as [t|e'] eqn:Hstep.
    + simpl in Hrun. destruct (IH _ _ Hrun) as (i & u & Hi & Hu).
      exists i, u. split; [lia | assumption].
    + simpl in Hrun. injection Hrun as ->.
      exists start, s. split; [lia | assumption].
Qed.

Lemma column_result (field : elastic_properties -> array)
    (ms : list elastic_properties) (i : nat) :
  returns (column field ms i) \/ column field ms i = Raise IndexError.
Proof.
  induction ms as [|m ms IH]; [left; by eexists|].
  unfold column in *. simpl.
  destruct (getitem (field m) i) as [x|e] eqn:Hget; simpl.
  - destruct IH as [[l ->] | ->]; simpl; [left; by eexists | by right].
  - right. unfold getitem in Hget.
    destruct (field m !! i); [discriminate | by injection Hget as <-].
Qed.

Lemma column_short (field : elastic_properties -> array)
    (ms : list elastic_properties) (i : nat) (m : elastic_properties) :
  m ∈ ms -> length (field m) <= i -> column field ms i = Raise IndexError.
Proof.
  intros Hin Hlen. induction Hin as [m ms | m m' ms Hin IH].
  - unfold column. simpl. by rewrite getitem_ge.
  - destruct (column_result field (m' :: ms) i) as [[l Hl] | Hr];
      [|assumption].
    unfold column in *. simpl in Hl.
    destruct (getitem (field m') i); simpl in Hl; [|discriminate].
    rewrite IH in Hl by assumption. discriminate.
Qed.

Lemma column_cons (field : elastic_properties -> array)
    (m : elastic_properties) (ms : list elastic_properties) (i : nat) :
  column field (m :: ms) i =
    x ← getitem (field m) i; l ← column field ms i; Ok (x :: l).
Proof. reflexivity. Qed.

Lemma column_ext (field field' : elastic_properties -> array)
    (f : elastic_properties -> elastic_properties)
    (ms : list elastic_properties) (i : nat) :
  (forall m, field' (f m) !! i = field m !! i) ->
  column field' (f <$> ms) i = column field ms i.
Proof.
  intros Hf. induction ms as [|m ms IH]; [reflexivity|].
  change (f <$> m :: ms) with (f m :: (f <$> ms)).
  rewrite !column_cons, IH. unfold getitem. by rewrite Hf.
Qed.

(** One iteration of [average_moduli] computes its row and then writes
    it. *)
Lemma average_point_row (ms : list elastic_properties)
    (scheme : averaging_scheme) (n i : nat) (res : elastic_properties) :
  sized n res -> i < n ->
  average_point ms scheme i res =
    row ← average_row ms scheme i; Ok (write_row res i row).
Proof.
  intros (HV & Hrho & HK & HG & Hfr) Hi. unfold average_point, average_row.
  destruct (column fraction ms i); simpl; [|reflexivity].
  destruct (column V ms i); simpl; [|reflexivity].
  destruct (column K ms i); simpl; [|reflexivity].
  destruct (column G ms i); simpl; [|reflexivity].
  destruct (column rho ms i); simpl; [|reflexivity].
  rewrite (setitem_lt (V res)) by lia. simpl.
  destruct (average_bulk_moduli scheme _ _ _); simpl; [|reflexivity].
  rewrite (setitem_lt (K res)) by lia. simpl.
  destruct (average_shear_moduli scheme _ _ _); simpl; [|reflexivity].
  rewrite (setitem_lt (G res)) by lia. simpl.
  destruct (average_density scheme _ _); simpl; [|reflexivity].
  rewrite (setitem_lt (rho res)), (setitem_lt (fraction res)) by lia.
  reflexivity.
Qed.

Lemma write_row_sized (n i : nat) (res : elastic_properties)
    (row : float * float * float * float) :
  sized n res -> sized n (write_row res i row).
Proof.
  intros (HV & Hrho & HK & HG & Hfr).
  repeat split; simpl; by rewrite length_insert.
Qed.

Lemma average_row_truncate (ms : list elastic_properties)
    (scheme : averaging_scheme) (n i : nat) :
  i < n -> average_row (truncate n <$> ms) scheme i = average_row ms scheme i.
Proof.
  intros Hi. unfold average_row.
  rewrite (column_ext fraction fraction (truncate n)),
    (column_ext V V (truncate n)), (column_ext K K (truncate n)),
    (column_ext G G (truncate n)), (column_ext rho rho (truncate n));
    try (intros m; simpl; by rewrite lookup_take_lt).
  reflexivity.
Qed.

Lemma average_point_truncate (ms : list elastic_properties)
    (scheme : averaging_scheme) (n i : nat) (res : elastic_properties) :
  i < n ->
  average_point (truncate n <$> ms) scheme i res =
    average_point ms scheme i res.
Proof.
  intros Hi. unfold average_point.
  rewrite (column_ext fraction fraction (truncate n)),
    (column_ext V V (truncate n)), (column_ext K K (truncate n)),
    (column_ext G G (truncate n)), (column_ext rho rho (truncate n));
    try (intros m; simpl; by rewrite lookup_take_lt).
  reflexivity.
Qed.

(** [average_moduli] reads the first [len(moduli_list[0].V)] entries of
    every array only. *)
Lemma average_moduli_truncate (garbage : float)
    (ms : list elastic_properties) (scheme : averaging_scheme)
    (m0 : elastic_properties) :
  ms !! 0 = Some m0 ->
  average_moduli garbage ms scheme =
    average_moduli garbage (truncate (length (V m0)) <$> ms) scheme.
Proof.
  intros Hm0. set (n := length (V m0)). unfold average_moduli, getitem.
  rewrite list_lookup_fmap, Hm0. simpl.
  rewrite length_take_le by lia. fold n. unfold for_range.
  symmetry. apply for_loop_ext. intros i t [_ Hi].
  by apply average_point_truncate.
Qed.

(** A record with an array shorter than [n] makes iteration
    [len(that array)] raise. *)
Lemma average_point_short (ms : list elastic_properties)
    (scheme : averaging_scheme) (m : elastic_properties) (i : nat)
    (res : elastic_properties) :
  m ∈ ms ->
  length (V m) <= i \/ length (rho m) <= i \/ length (K m) <= i \/
    length (G m) <= i \/ length (fraction m) <= i ->
  average_point ms scheme i res = Raise IndexError.
Proof.
  intros Hin Hshort. unfold average_point.
  destruct (column_result fraction ms i) as [[fr Hfr] | Hfr]; rewrite Hfr;
    [|reflexivity].
  simpl.
  destruct (column_result V ms i) as [[vs Hvs] | Hvs]; rewrite Hvs;
    [|reflexivity].
  simpl.
  destruct (column_result K ms i) as [[ks Hks] | Hks]; rewrite Hks;
    [|reflexivity].
  simpl.
  destruct (column_result G ms i) as [[gs Hgs] | Hgs]; rewrite Hgs;
    [|reflexivity].
  simpl.
  destruct (column_result rho ms i) as [[rs Hrs] | Hrs]; rewrite Hrs;
    [|reflexivity].
  exfalso.
  destruct Hshort as [H|[H|[H|[H|H]]]];
    [ pose proof (column_short V ms i m Hin H)
    | pose proof (column_short rho ms i m Hin H)
    | pose proof (column_short K ms i m Hin H)
    | pose proof (column_short G ms i m Hin H)
    | pose proof (column_short fraction ms i m Hin H) ];
    congruence.
Qed.

Lemma setitem_Raise {A} (a : list A) (i : nat) (x : A) (e : exn) :
  setitem a i x = Raise e -> e = IndexError.
Proof.
  unfold setitem. destruct (decide (i < length a)); [discriminate|].
  by intros [= <-].
Qed.

(** With a scheme that returns, an iteration of [average_moduli] can only
    raise [IndexError]. *)
Lemma average_point_Raise (ms : list elastic_properties)
    (scheme : averaging_scheme) (i : nat) (res : elastic_properties)
    (e : exn) :
  scheme_returns scheme ->
  average_point ms scheme i res = Raise e -> e = IndexError.
Proof.
  intros (Hbulk & Hshear & Hdens). unfold average_point.
  destruct (column_result fraction ms i) as [[fr ->] | ->]; [|by intros [=]].
  simpl.
  destruct (column_result V ms i) as [[vs ->] | ->]; [|by intros [=]].
  simpl.
  destruct (column_result K ms i) as [[ks ->] | ->]; [|by intros [=]].
  simpl.
  destruct (column_result G ms i) as [[gs ->] | ->]; [|by intros [=]].
  simpl.
  destruct (column_result rho ms i) as [[rs ->] | ->]; [|by intros [=]].
  simpl.
  destruct (setitem (V res) i _) eqn:E1; simpl;
    [|intros [= <-]; by apply setitem_Raise in E1].
  destruct (Hbulk (volume_fractions (molar_volumes vs fr)) ks gs) as [k ->].
  simpl.
  destruct (setitem (K res) i _) eqn:E2; simpl;
    [|intros [= <-]; by apply setitem_Raise in E2].
  destruct (Hshear (volume_fractions (molar_volumes vs fr)) ks gs) as [g ->].
  simpl.
  destruct (setitem (G res) i _) eqn:E3; simpl;
    [|intros [= <-]; by apply setitem_Raise in E3].
  destruct (Hdens (volume_fractions (molar_volumes vs fr)) rs) as [d ->].
  simpl.
  destruct (setitem (rho res) i _) eqn:E4; simpl;
    [|intros [= <-]; by apply setitem_Raise in E4].
  destruct (setitem (fraction res) i _) eqn:E5; simpl;
    [discriminate | intros [= <-]; by apply setitem_Raise in E5].
Qed.

(** X7. [average_moduli] is sized by the first record: with
    [n = len(moduli_list[0].V)], the call is the call on every record cut
    down to its first [n] entries (longer records are not an error); a
    record with an array shorter than [n] makes the call raise; the empty
    list raises [IndexError]; and with a scheme that returns, [IndexError]
    is the only exception of the call. *)
Theorem average_moduli_lengths (garbage : float)
    (ms : list elastic_properties) (scheme : averaging_scheme) :
  average_moduli garbage [] scheme = Raise IndexError /\
  (forall m0, ms !! 0 = Some m0 ->
     average_moduli garbage ms scheme =
       average_moduli garbage (truncate (length (V m0)) <$> ms) scheme /\
     (forall m, m ∈ ms -> ~ covers (length (V m0)) m ->
        raises (average_moduli garbage ms scheme))) /\
  (scheme_returns scheme ->
   forall e, average_moduli garbage ms scheme = Raise e -> e = IndexError).
Proof.
  split; [reflexivity|]. split.
  - intros m0 Hm0. split; [by apply average_moduli_truncate|].
    intros m Hin Hcov. set (n := length (V m0)) in *.
    set (k := min (length (V m))
                (min (length (rho m))
                   (min (length (K m))
                      (min (length (G m)) (length (fraction m)))))).
    assert (Hk : k < n).
    { unfold covers in Hcov. lia. }
    unfold average_moduli, getitem. rewrite Hm0. simpl. fold n.
    apply (for_loop_raises _ n 0 _ k); [lia|].
    intros t. exists IndexError.
    apply (average_point_short ms scheme m k t Hin). lia.
  - intros Hs e Hrun. unfold average_moduli in Hrun.
    destruct (getitem ms 0) as [m0|e0] eqn:Hget; simpl in Hrun.
    + destruct (for_loop_Raise_inv _ _ _ _ _ Hrun) as (i & t & _ & Hstep).
      by apply (average_point_Raise ms scheme i t e Hs).
    + injection Hrun as <-. unfold getitem in Hget.
      destruct (ms !! 0); [discriminate | by injection Hget as <-].
Qed.

(** [average_moduli_lengths] at a list whose second record is longer than
    the first. *)
Lemma average_moduli_lengths_witness :
  average_moduli NaN uneven_moduli voigt =
    average_moduli NaN (truncate 1 <$> uneven_moduli) voigt.
Proof.
  destruct (average_moduli_lengths NaN uneven_moduli voigt)
    as (_ & Hcut & _).
  destruct (Hcut _ eq_refl) as [Heq _]. exact Heq.
Defined.

(** ** Freshly allocated arrays *)

Lemma for_loop_agree {St} (Rel : nat -> St -> St -> Prop)
    (body : nat -> St -> result St) (count start : nat) (s1 s2 : St) :
  Rel start s1 s2 ->
  (forall i t1 t2, start <= i < start + count -> Rel i t1 t2 ->
     agree (Rel (S i)) (body i t1) (body i t2)) ->
  agree (Rel (start + count))
    (for_loop body start count s1) (for_loop body start count s2).
Proof.
  revert start s1 s2. induction count as [|count IH];
    intros start s1 s2 Hs Hbody.
  - simpl. by rewrite Nat.add_0_r.
  - assert (Hstep : agree (Rel (S start)) (body start s1) (body start s2)).
    { apply Hbody; [lia | assumption]. }
    simpl. destruct (body start s1) as [t1|e1], (body start s2) as [t2|e2];
      simpl in *; try contradiction; try assumption.
    replace (start + S count) with (S start + count) by lia.
    apply IH; [assumption|].
    intros i u1 u2 Hi. apply Hbody. lia.
Qed.

Lemma agree_impl {St} (Rel : St -> St -> Prop) (m1 m2 : result St) :
  agree Rel m1 m2 -> (forall u1 u2, Rel u1 u2 -> u1 = u2) -> m1 = m2.
Proof.
  destruct m1 as [u1|e1], m2 as [u2|e2]; simpl; intros Hag Heq;
    try contradiction.
  - f_equal. by apply Heq.
  - by f_equal.
Qed.

Lemma same_prefix_insert (n i : nat) (a b : array) (x : float) :
  i < n -> same_prefix n i a b ->
  same_prefix n (S i) (<[i:=x]> a) (<[i:=x]> b).
Proof.
  intros Hi (Ha & Hb & Hab). unfold same_prefix.
  rewrite !length_insert. repeat (split; [assumption|]).
  rewrite (take_S_r (<[i:=x]> a) i x) by (apply list_lookup_insert_eq; lia).
  rewrite (take_S_r (<[i:=x]> b) i x) by (apply list_lookup_insert_eq; lia).
  rewrite !take_insert_ge by lia. by rewrite Hab.
Qed.

Lemma same_prefix_full (n : nat) (a b : array) : same_prefix n n a b -> a = b.
Proof.
  intros (Ha & Hb & Hab). by rewrite !take_ge in Hab by lia.
Qed.

Lemma same_prefix_fresh (g1 g2 : float) (n : nat) :
  same_prefix n 0 (np_ndarray g1 n) (np_ndarray g2 n).
Proof. unfold same_prefix. by rewrite !length_np_ndarray. Qed.

(** [average_moduli] does not depend on what the fresh arrays hold. *)
Lemma average_moduli_fresh (g1 g2 : float) (ms : list elastic_properties)
    (scheme : averaging_scheme) :
  average_moduli g1 ms scheme = average_moduli g2 ms scheme.
Proof.
  unfold average_moduli. destruct (getitem ms 0) as [m0|e]; [|reflexivity].
  simpl. set (n := length (V m0)).
  pose (Rel := fun (i : nat) (r1 r2 : elastic_properties) =>
    same_prefix n i (V r1) (V r2) /\ same_prefix n i (rho r1) (rho r2) /\
    same_prefix n i (K r1) (K r2) /\ same_prefix n i (G r1) (G r2) /\
    same_prefix n i (fraction r1) (fraction r2)).
  unfold for_range.
  apply (agree_impl (Rel (0 + n))).
  - apply for_loop_agree.
    + repeat split; apply length_np_ndarray.
    + intros i t1 t2 [_ Hi] (HV & Hrho & HK & HG & Hfr). simpl in Hi.
      assert (Ht1 : sized n t1).
      { destruct HV as (? & _), Hrho as (? & _), HK as (? & _),
          HG as (? & _), Hfr as (? & _). by repeat split. }
      assert (Ht2 : sized n t2).
      { destruct HV as (_ & ? & _), Hrho as (_ & ? & _), HK as (_ & ? & _),
          HG as (_ & ? & _), Hfr as (_ & ? & _). by repeat split. }
      rewrite (average_point_row ms scheme n i t1),
        (average_point_row ms scheme n i t2) by assumption.
      destruct (average_row ms scheme i) as [row|e]; simpl; [|reflexivity].
      split; [|split; [|split; [|split]]]; by apply same_prefix_insert.
  - intros r1 r2 (HV & Hrho & HK & HG & Hfr). simpl in *.
    apply same_prefix_full in HV, Hrho, HK, HG, Hfr.
    destruct r1, r2. simpl in *. by subst.
Qed.

(** [compute_velocities] does not depend on what the fresh arrays hold. *)
Lemma compute_velocities_fresh (g1 g2 : float) (m : elastic_properties) :
  compute_velocities g1 m = compute_velocities g2 m.
Proof.
  destruct (decide (length (V m) <= length (K m))) as [HK|HK].
  2:{ rewrite !compute_velocities_short; [reflexivity | left; lia..]. }
  destruct (decide (length (V m) <= length (G m))) as [HG|HG].
  2:{ rewrite !compute_velocities_short; [reflexivity | right; left; lia..]. }
  destruct (decide (length (V m) <= length (rho m))) as [Hrho|Hrho].
  2:{ rewrite !compute_velocities_short; [reflexivity | right; right; lia..]. }
  by rewrite !compute_velocities_closed.
Qed.

(** [chi_factor] does not depend on what [np.empty_like] holds. *)
Lemma chi_factor_fresh (g1 g2 : float) (calc obs : array) :
  chi_factor g1 calc obs = chi_factor g2 calc obs.
Proof.
  destruct (decide (length calc <= length obs)) as [Hlen|Hlen].
  - by rewrite !chi_factor_formula.
  - rewrite !chi_factor_short_obs; [reflexivity | lia..].
Qed.

Lemma same_rows_sized (n i : nat) (m1 m2 : elastic_properties) :
  same_rows n i m1 m2 -> sized n m1 /\ sized n m2.
Proof.
  intros ((? & ? & _) & (? & ? & _) & (? & ? & _) & (? & ? & _) & (? & ? & _)).
  by repeat split.
Qed.

(** One phase of one evaluation point, on two lists of records that
    differ in unassigned cells only. *)
Lemma calculate_phase_agree {M} `{Mineral M} (rock : composite M)
    (n idx len midx : nat) (ms1 ms2 : list elastic_properties) :
  idx < n -> midx < len ->
  same_phases n idx len midx ms1 ms2 ->
  agree (same_phases n idx len (S midx))
    (calculate_phase rock idx midx ms1) (calculate_phase rock idx midx ms2).
Proof.
  intros Hidx Hmidx (Hl1 & Hl2 & Hrows). unfold calculate_phase.
  destruct (getitem_lt ms1 midx) as (m1 & -> & Hm1); [lia|].
  destruct (getitem_lt ms2 midx) as (m2 & -> & Hm2); [lia|]. simpl.
  pose proof (Hrows midx m1 m2 Hm1 Hm2) as Hm.
  destruct (decide (midx < midx)) as [?|_]; [lia|].
  destruct (same_rows_sized _ _ _ _ Hm)
    as [(HV1 & Hr1 & HK1 & HG1 & Hf1) (HV2 & Hr2 & HK2 & HG2 & Hf2)].
  destruct Hm as (HV & Hrho & HK & HG & Hfr).
  destruct (getitem (phases rock) midx) as [ph|e]; simpl; [|reflexivity].
  destruct (molar_volume (Phase.mineral ph)) as [v|e]; simpl; [|reflexivity].
  rewrite (setitem_lt (V m1)), (setitem_lt (V m2)) by lia. simpl.
  destruct (adiabatic_bulk_modulus (Phase.mineral ph)) as [k|e]; simpl;
    [|reflexivity].
  rewrite (setitem_lt (K m1)), (setitem_lt (K m2)) by lia. simpl.
  destruct (shear_modulus (Phase.mineral ph)) as [g|e]; simpl; [|reflexivity].
  rewrite (setitem_lt (G m1)), (setitem_lt (G m2)) by lia. simpl.
  destruct (molar_mass (Phase.mineral ph)) as [mass|e]; simpl; [|reflexivity].
  destruct (py_truediv mass v) as [r|e]; simpl; [|reflexivity].
  rewrite (setitem_lt (rho m1)), (setitem_lt (rho m2)) by lia. simpl.
  rewrite (setitem_lt (fraction m1)), (setitem_lt (fraction m2)) by lia.
  simpl. unfold same_phases. rewrite !length_insert.
  repeat (split; [assumption|]).
  intros j u1 u2 Hu1 Hu2. destruct (decide (j = midx)) as [->|Hj].
  - rewrite list_lookup_insert_eq in Hu1, Hu2 by lia.
    injection Hu1 as <-. injection Hu2 as <-.
    destruct (decide (midx < S midx)) as [_|?]; [|lia].
    split; [|split; [|split; [|split]]]; simpl; by apply same_prefix_insert.
  - rewrite list_lookup_insert_ne in Hu1, Hu2 by lia.
    pose proof (Hrows j u1 u2 Hu1 Hu2) as Hu.
    destruct (decide (j < midx)), (decide (j < S midx)); try lia; exact Hu.
Qed.

Lemma same_rows_full (n : nat) (m1 m2 : elastic_properties) :
  same_rows n n m1 m2 -> m1 = m2.
Proof.
  intros (HV & Hrho & HK & HG & Hfr).
  apply same_prefix_full in HV, Hrho, HK, HG, Hfr.
  destruct m1, m2. simpl in *. by subst.
Qed.

Lemma same_phases_full (n len : nat) (ms1 ms2 : list elastic_properties) :
  same_phases n n len 0 ms1 ms2 -> ms1 = ms2.
Proof.
  intros (Hl1 & Hl2 & Hrows). apply list_eq. intros midx.
  destruct (decide (midx < len)) as [Hlt|Hge].
  - destruct (lookup_lt_is_Some_2 ms1 midx) as [m1 Hm1]; [lia|].
    destruct (lookup_lt_is_Some_2 ms2 midx) as [m2 Hm2]; [lia|].
    rewrite Hm1, Hm2. f_equal. apply (same_rows_full n).
    exact (Hrows midx m1 m2 Hm1 Hm2).
  - by rewrite !lookup_ge_None_2 by lia.
Qed.

(** One evaluation point, on two lists of records that differ in
    unassigned cells only. *)
Lemma calculate_point_agree {M} `{Mineral M} `{Composite M}
    (pressures temperatures : array) (n idx len : nat) (rock : composite M)
    (ms1 ms2 : list elastic_properties) :
  idx < n ->
  same_phases n idx len 0 ms1 ms2 ->
  agree (fun st1 st2 => st1.1 = st2.1 /\
                        same_phases n (S idx) len 0 st1.2 st2.2)
    (calculate_point pressures temperatures idx (rock, ms1))
    (calculate_point pressures temperatures idx (rock, ms2)).
Proof.
  intros Hidx Hms. pose proof Hms as (Hl1 & Hl2 & _). simpl.
  destruct (getitem pressures idx) as [p|e]; simpl; [|reflexivity].
  destruct (getitem temperatures idx) as [t|e]; simpl; [|reflexivity].
  destruct (set_state rock p t) as [rock'|e]; simpl; [|reflexivity].
  unfold for_range. rewrite Hl1, Hl2.
  pose proof (for_loop_agree (same_phases n idx len)
                (calculate_phase rock' idx) len 0 ms1 ms2 Hms) as Hloop.
  destruct (for_loop (calculate_phase rock' idx) 0 len ms1) as [u1|e1],
           (for_loop (calculate_phase rock' idx) 0 len ms2) as [u2|e2];
    simpl in *.
  - split; [reflexivity|].
    destruct Hloop as (Hu1 & Hu2 & Hrows).
    { intros i t1 t2 [_ Hi]. by apply calculate_phase_agree. }
    repeat (split; [assumption|]).
    intros midx m1 m2 Hm1 Hm2. pose proof (Hrows midx m1 m2 Hm1 Hm2) as Hm.
    apply lookup_lt_Some in Hm1.
    destruct (decide (midx < len)), (decide (midx < 0)); try lia; exact Hm.
  - apply Hloop. intros i t1 t2 [_ Hi]. by apply calculate_phase_agree.
  - apply Hloop. intros i t1 t2 [_ Hi]. by apply calculate_phase_agree.
  - apply Hloop. intros i t1 t2 [_ Hi]. by apply calculate_phase_agree.
Qed.

Lemma lookup_map_const {A B} (c : B) (l : list A) (i : nat) (x : B) :
  map (fun _ => c) l !! i = Some x -> x = c.
Proof.
  revert i. induction l as [|a l IH]; intros [|i] Hx; try discriminate.
  - by injection Hx as <-.
  - by apply (IH i).
Qed.

(** [calculate_moduli] does not depend on what the fresh arrays hold. *)
Lemma calculate_moduli_fresh {M} `{Mineral M} `{Composite M} (g1 g2 : float)
    (rock : composite M) (pressures temperatures : array) :
  calculate_moduli g1 rock pressures temperatures =
    calculate_moduli g2 rock pressures temperatures.
Proof.
  unfold calculate_moduli, for_range.
  set (n := length pressures). set (len := length (phases rock)).
  apply (agree_impl
           (fun st1 st2 => st1.1 = st2.1 /\
                           same_phases n (0 + n) len 0 st1.2 st2.2)).
  - apply (for_loop_agree
             (fun i st1 st2 => st1.1 = st2.1 /\
                               same_phases n i len 0 st1.2 st2.2)).
    + simpl. split; [reflexivity|]. unfold same_phases.
      rewrite !length_map. repeat (split; [reflexivity|]).
      intros midx m1 m2 Hm1 Hm2.
      apply lookup_map_const in Hm1 as ->.
      apply lookup_map_const in Hm2 as ->.
      destruct (decide (midx < 0)); [lia|].
      repeat split; apply length_np_ndarray.
    + intros i [r1 ms1] [r2 ms2] [_ Hi] [Hr Hms]. simpl in *. subst r2.
      by apply (calculate_point_agree pressures temperatures n i len r1).
  - intros [r1 ms1] [r2 ms2] [Hr Hms]. simpl in *. subst r2. f_equal.
    by apply (same_phases_full n len).
Qed.

(** X8. What [np.ndarray] and [np.empty_like] leave in a fresh array never
    reaches a result: [calculate_moduli], [average_moduli],
    [compute_velocities] and [chi_factor] return the same value, or raise
    the same exception, whatever the unassigned cells hold. *)
Theorem no_unassigned_cell_is_returned {M} `{Mineral M} `{Composite M}
    (g1 g2 : float) :
  (forall (rock : composite M) pressures temperatures,
     calculate_moduli g1 rock pressures temperatures =
       calculate_moduli g2 rock pressures temperatures) /\
  (forall moduli_list scheme,
     average_moduli g1 moduli_list scheme =
       average_moduli g2 moduli_list scheme) /\
  (forall moduli, compute_velocities g1 moduli = compute_velocities g2 moduli) /\
  (forall calc obs, chi_factor g1 calc obs = chi_factor g2 calc obs).
Proof.
  split; [|split; [|split]].
  - intros rock pressures temperatures. apply calculate_moduli_fresh.
  - intros moduli_list scheme. apply average_moduli_fresh.
  - intros moduli. apply compute_velocities_fresh.
  - intros calc obs. apply chi_factor_fresh.
Qed.

(** ** The per-phase evaluator *)

Lemma for_loop_S {St} (body : nat -> St -> result St)
    (count start : nat) (s : St) :
  for_loop body start (S count) s =
    t ← body start s; for_loop body (S start) count t.
Proof. reflexivity. Qed.

Lemma for_loop_snoc {St} (body : nat -> St -> result St)
    (count start : nat) (s : St) :
  for_loop body start (S count) s =
    t ← for_loop body start count s; body (start + count) t.
Proof.
  revert start s. induction count as [|count IH]; intros start s.
  - simpl. rewrite Nat.add_0_r. by destruct (body start s).
  - rewrite for_loop_S, (for_loop_S body count).
    destruct (body start s) as [t|e]; [|reflexivity].
    cbn [mbind result_bind]. rewrite IH.
    by replace (S start + count) with (start + S count) by lia.
Qed.

(** What a returning iteration of the loop over [midx] has done. *)
Lemma calculate_phase_inv {M} `{Mineral M} (rock : composite M)
    (idx midx : nat) (ms ms' : list elastic_properties) :
  calculate_phase rock idx midx ms = Ok ms' ->
  exists m ph v k g d,
    ms !! midx = Some m /\ phases rock !! midx = Some ph /\
    phase_row ph (Phase.fraction ph * v)%fl k g d (Phase.fraction ph) /\
    idx < length (V m) /\ idx < length (K m) /\ idx < length (G m) /\
    idx < length (rho m) /\ idx < length (fraction m) /\
    ms' = <[midx :=
             {| V := <[idx:=(Phase.fraction ph * v)%fl]> (V m);
                rho := <[idx:=d]> (rho m);
                K := <[idx:=k]> (K m);
                G := <[idx:=g]> (G m);
                fraction := <[idx:=Phase.fraction ph]> (fraction m) |}]> ms.
Proof.
  intros Hrun. unfold calculate_phase in Hrun.
  apply bind_Ok in Hrun as (m & Hm & Hrun).
  apply bind_Ok in Hrun as (ph & Hph & Hrun).
  apply bind_Ok in Hrun as (v & Hv & Hrun).
  apply bind_Ok in Hrun as (m_V & HmV & Hrun).
  apply bind_Ok in Hrun as (k & Hk & Hrun).
  apply bind_Ok in Hrun as (m_K & HmK & Hrun).
  apply bind_Ok in Hrun as (g & Hg & Hrun).
  apply bind_Ok in Hrun as (m_G & HmG & Hrun).
  apply bind_Ok in Hrun as (mass & Hmass & Hrun).
  apply bind_Ok in Hrun as (v' & Hv' & Hrun).
  apply bind_Ok in Hrun as (d & Hd & Hrun).
  apply bind_Ok in Hrun as (m_rho & Hmrho & Hrun).
  apply bind_Ok in Hrun as (m_fr & Hmfr & Hrun).
  injection Hrun as <-.
  apply getitem_Ok in Hm, Hph.
  apply setitem_Ok in HmV as [? ->], HmK as [? ->], HmG as [? ->],
    Hmrho as [? ->], Hmfr as [? ->].
  assert (v' = v) as -> by congruence.
  exists m, ph, v, k, g, d. repeat (split; [assumption|]).
  split; [|by repeat (split; [assumption|])].
  exists v, mass. by repeat (split; [assumption|]).
Qed.

Lemma row_stored_other {M} `{Mineral M} (r : composite M)
    (idx i midx : nat) (m : elastic_properties) (v k g d f : float) :
  idx <> i -> row_stored r idx midx m ->
  row_stored r idx midx
    {| V := <[i:=v]> (V m); rho := <[i:=d]> (rho m); K := <[i:=k]> (K m);
       G := <[i:=g]> (G m); fraction := <[i:=f]> (fraction m) |}.
Proof.
  intros Hne (ph & v0 & k0 & g0 & d0 & f0 & Hph & Hrow & HV & HK & HG & Hrho
              & Hfr).
  exists ph, v0, k0, g0, d0, f0. simpl.
  rewrite !list_lookup_insert_ne by lia. auto 10.
Qed.

(** What a returning iteration of the loop over [idx] has done: the
    state is set, row [idx] of every record is stored, the other rows are
    kept. *)
Lemma calculate_point_rows {M} `{Mineral M} `{Composite M}
    (pressures temperatures : array) (i : nat) (r r' : composite M)
    (ms ms' : list elastic_properties) :
  calculate_point pressures temperatures i (r, ms) = Ok (r', ms') ->
  (p ← getitem pressures i; t ← getitem temperatures i; set_state r p t)
    = Ok r' /\
  length ms' = length ms /\
  (forall idx midx m', idx <> i -> ms' !! midx = Some m' ->
     exists m, ms !! midx = Some m /\
       forall r0 : composite M,
         row_stored r0 idx midx m -> row_stored r0 idx midx m') /\
  (forall midx m', ms' !! midx = Some m' -> row_stored r' i midx m').
Proof.
  intros Hrun. simpl in Hrun.
  apply bind_Ok in Hrun as (p & Hp & Hrun).
  apply bind_Ok in Hrun as (t & Ht & Hrun).
  apply bind_Ok in Hrun as (r1 & Hset & Hrun).
  apply bind_Ok in Hrun as (ms1 & Hloop & Hrun).
  injection Hrun as <- <-.
  split; [by rewrite Hp, Ht|].
  pose (Inv := fun (j : nat) (l : list elastic_properties) =>
    length l = length ms /\
    (forall idx midx m', idx <> i -> l !! midx = Some m' ->
       exists m, ms !! midx = Some m /\
         forall r0 : composite M,
           row_stored r0 idx midx m -> row_stored r0 idx midx m') /\
    (forall midx m', midx < j -> l !! midx = Some m' ->
       row_stored r1 i midx m')).
  assert (Hfin : Inv (0 + length ms) ms1).
  { apply (for_loop_partial Inv (calculate_phase r1 i) (length ms) 0 ms ms1
             Hloop).
    - repeat split; [eauto | intros; lia].
    - intros j l l' [_ Hj] (Hlen & Hkeep & Hnew) Hstep.
      destruct (calculate_phase_inv r1 i j l l' Hstep)
        as (m & ph & v & k & g & d & Hm & Hph & Hrow & HV & HK & HG & Hrho
            & Hfr & ->).
      split; [by rewrite length_insert|]. split.
      + intros idx midx m' Hne Hm'.
        destruct (decide (midx = j)) as [->|Hmj].
        * rewrite list_lookup_insert_eq in Hm' by (by apply lookup_lt_Some in Hm).
          injection Hm' as <-.
          destruct (Hkeep idx j m Hne Hm) as (m0 & Hm0 & Himp).
          exists m0. split; [assumption|]. intros r0 Hr0.
          apply row_stored_other; [assumption | by apply Himp].
        * rewrite list_lookup_insert_ne in Hm' by lia.
          by apply (Hkeep idx midx m').
      + intros midx m' Hlt Hm'.
        destruct (decide (midx = j)) as [->|Hmj].
        * rewrite list_lookup_insert_eq in Hm' by (by apply lookup_lt_Some in Hm).
          injection Hm' as <-.
          exists ph, (Phase.fraction ph * v)%fl, k, g, d, (Phase.fraction ph).
          simpl. rewrite !list_lookup_insert_eq by assumption. auto 10.
        * rewrite list_lookup_insert_ne in Hm' by lia.
          apply Hnew; [lia | assumption]. }
  destruct Hfin as (Hlen & Hkeep & Hnew).
  repeat split; [assumption.. |].
  intros midx m' Hm'. apply Hnew; [|assumption].
  apply lookup_lt_Some in Hm'. lia.
Qed.

Lemma set_states_S {M} `{Composite M} (rock r : composite M)
    (pressures temperatures : array) (i : nat) :
  set_states rock pressures temperatures i = Ok r ->
  set_states rock pressures temperatures (S i) =
    p ← getitem pressures i; t ← getitem temperatures i; set_state r p t.
Proof.
  unfold set_states, for_range. intros Hi. by rewrite for_loop_snoc, Hi.
Qed.

(** [calculate_moduli], row by row. *)
Lemma calculate_moduli_rows {M} `{Mineral M} `{Composite M}
    (garbage : float) (rock rock' : composite M)
    (pressures temperatures : array) (ms : list elastic_properties) :
  calculate_moduli garbage rock pressures temperatures = Ok (rock', ms) ->
  set_states rock pressures temperatures (length pressures) = Ok rock' /\
  forall idx, idx < length pressures ->
    point_stored rock pressures temperatures idx ms.
Proof.
  intros Hrun. unfold calculate_moduli, for_range in Hrun.
  pose (Inv := fun (i : nat) (st : composite M * list elastic_properties) =>
    set_states rock pressures temperatures i = Ok st.1 /\
    forall idx, idx < i ->
      point_stored rock pressures temperatures idx st.2).
  apply (for_loop_partial Inv _ _ _ _ _ Hrun).
  - split; [reflexivity | intros; lia].
  - intros i [r l] [r' l'] [_ Hi] [Hstate Hrows] Hstep. simpl in *.
    destruct (calculate_point_rows pressures temperatures i r r' l l' Hstep)
      as (Hset & Hlen & Hkeep & Hnew).
    assert (Hstate' : set_states rock pressures temperatures (S i) = Ok r').
    { by rewrite (set_states_S rock r). }
    split; [assumption|].
    intros idx Hidx. destruct (decide (idx = i)) as [->|Hne].
    + exists r'. split; assumption.
    + destruct (Hrows idx) as (r0 & Hr0 & Hall); [lia|].
      exists r0. split; [assumption|].
      intros midx m' Hm'.
      destruct (Hkeep idx midx m' Hne Hm') as (m & Hm & Himp).
      apply Himp. by apply Hall.
Qed.

(** An iteration of the loop over [midx] returns when the phase reports a
    row and the row fits. *)
Lemma calculate_phase_returns {M} `{Mineral M} (rock : composite M)
    (n idx midx : nat) (ms : list elastic_properties)
    (ph : Phase.phase M) (v k g d f : float) :
  idx < n -> midx < length ms -> Forall (sized n) ms ->
  phases rock !! midx = Some ph -> phase_row ph v k g d f ->
  returns (calculate_phase rock idx midx ms).
Proof.
  intros Hidx Hmidx Hms Hph (volume & mass & Hv & Hmass & Hk & Hg & Hd & _).
  destruct (getitem_lt ms midx Hmidx) as (m & Hget & Hm).
  pose proof (Forall_lookup_1 _ _ _ _ Hms Hm) as (HV & Hrho & HK & HG & Hfr).
  unfold calculate_phase. rewrite Hget. simpl.
  apply getitem_Ok in Hph. rewrite Hph. simpl.
  rewrite Hv. simpl. rewrite (setitem_lt (V m)) by lia. simpl.
  rewrite Hk. simpl. rewrite (setitem_lt (K m)) by lia. simpl.
  rewrite Hg. simpl. rewrite (setitem_lt (G m)) by lia. simpl.
  rewrite Hmass. simpl. rewrite Hd. simpl.
  rewrite (setitem_lt (rho m)), (setitem_lt (fraction m)) by lia.
  by eexists.
Qed.

(** [calculate_moduli] returns when every evaluation point is readable. *)
Lemma calculate_moduli_total {M} `{Mineral M} `{Composite M}
    (garbage : float) (rock : composite M) (pressures temperatures : array) :
  (forall idx, idx < length pressures ->
     point_readable rock pressures temperatures (length (phases rock)) idx) ->
  returns (calculate_moduli garbage rock pressures temperatures).
Proof.
  intros Hread. unfold calculate_moduli, for_range.
  set (n := length pressures) in *. set (len := length (phases rock)) in *.
  pose (Inv := fun (i : nat) (st : composite M * list elastic_properties) =>
    set_states rock pressures temperatures i = Ok st.1 /\
    length st.2 = len /\ Forall (sized n) st.2).
  destruct (for_loop_total Inv (calculate_point pressures temperatures) n 0
              (rock, map (fun _ => set_size garbage n) (phases rock)))
    as (st & Hrun & _).
  - repeat split; simpl.
    + apply length_map.
    + apply Forall_fmap, Forall_true. intros ph. apply sized_set_size.
  - intros i [r ms] [_ Hi] (Hstate & Hlen & Hms). simpl in *.
    destruct (Hread i Hi) as (r' & Hr' & Hphases).
    rewrite (set_states_S rock r) in Hr' by assumption.
    apply bind_Ok in Hr' as (p & Hp & Hr').
    apply bind_Ok in Hr' as (t & Ht & Hr').
    rewrite Hp, Ht. simpl. rewrite Hr'. simpl.
    destruct (for_loop_total
                (fun _ l => length l = len /\ Forall (sized n) l)
                (calculate_phase r' i) (length ms) 0 ms)
      as (ms' & Hloop & Hlen' & Hms').
    + by split.
    + intros j l [_ Hj] [Hl Hsz]. simpl in Hj.
      destruct (Hphases j) as (ph & v & k & g & d & f & Hph & Hrow); [lia|].
      destruct (calculate_phase_returns r' n i j l ph v k g d f)
        as [l' Hl']; try assumption; [lia|].
      exists l'. split; [assumption|].
      destruct (calculate_phase_sized r' n i j l l' Hl' Hsz) as [? ?].
      split; [lia | assumption].
    + unfold for_range. rewrite Hloop. simpl.
      eexists. split; [reflexivity|]. simpl.
      split; [|by split].
      rewrite (set_states_S rock r) by assumption.
      by rewrite Hp, Ht.
  - by exists st.
Qed.

(** X9. When [calculate_moduli] returns, the rock is left in the state of
    the last evaluation point, there is one record per phase, and row
    [idx] of the record of each phase holds what that phase reports in the
    rock right after [set_state(pressures[idx], temperatures[idx])]:
    [V = fraction * molar_volume], [K], [G],
    [rho = molar_mass / molar_volume] and [fraction]; later evaluation
    points do not overwrite it. *)
Theorem calculate_moduli_stores_rows {M} `{Mineral M} `{Composite M}
    (garbage : float) (rock rock' : composite M)
    (pressures temperatures : array) (ms : list elastic_properties) :
  calculate_moduli garbage rock pressures temperatures = Ok (rock', ms) ->
  set_states rock pressures temperatures (length pressures) = Ok rock' /\
  length ms = length (phases rock) /\
  forall idx, idx < length pressures ->
    point_stored rock pressures temperatures idx ms.
Proof.
  intros Hrun.
  destruct (calculate_moduli_rows garbage rock rock' pressures temperatures
              ms Hrun) as [Hstate Hrows].
  destruct (calculate_moduli_sized garbage rock rock' pressures temperatures
              ms Hrun) as [Hlen _].
  auto.
Qed.

(** The hypothesis of [calculate_moduli_stores_rows] at [two_phase_rock]. *)
Lemma calculate_moduli_stores_rows_witness :
  calculate_moduli NaN two_phase_rock [Fin 25e9] [Fin 2000] =
    Ok (two_phase_rock, two_phase_moduli) /\
  point_stored two_phase_rock [Fin 25e9] [Fin 2000] 0 two_phase_moduli.
Proof.
  assert (Hcalc :
    calculate_moduli NaN two_phase_rock [Fin 25e9] [Fin 2000] =
      Ok (two_phase_rock, two_phase_moduli)).
  { apply (calculate_moduli_two_phases NaN
             (mk_frozen 1e-5 (4000 * 1e-5) 200e9 100e9)
             (mk_frozen 2e-5 (3000 * 2e-5) 100e9 50e9) (Fin 25e9) (Fin 2000)
             0.5 0.5 1e-5 2e-5 (4000 * 1e-5) (3000 * 2e-5)
             200e9 100e9 100e9 50e9);
      [reflexivity | repeat split | repeat split | lra | lra]. }
  split; [exact Hcalc|].
  destruct (calculate_moduli_stores_rows NaN two_phase_rock two_phase_rock
              [Fin 25e9] [Fin 2000] two_phase_moduli Hcalc) as (_ & _ & Hrows).
  apply Hrows. simpl. lia.
Defined.

(** X10. [calculate_moduli] returns exactly when every evaluation point
    is readable: [set_state] returns at each point in turn (which needs
    [temperatures] to be long enough), the rock keeps at least its initial
    number of phases, and each of these phases returns its four properties
    with a non-zero molar volume. *)
Theorem calculate_moduli_returns_iff {M} `{Mineral M} `{Composite M}
    (garbage : float) (rock : composite M) (pressures temperatures : array) :
  returns (calculate_moduli garbage rock pressures temperatures) <->
  forall idx, idx < length pressures ->
    point_readable rock pressures temperatures (length (phases rock)) idx.
Proof.
  split; [|apply calculate_moduli_total].
  intros [[rock' ms] Hrun] idx Hidx.
  destruct (calculate_moduli_rows garbage rock rock' pressures temperatures
              ms Hrun) as [_ Hrows].
  destruct (calculate_moduli_sized garbage rock rock' pressures temperatures
              ms Hrun) as [Hlen _].
  destruct (Hrows idx Hidx) as (r & Hr & Hall).
  exists r. split; [assumption|].
  intros midx Hmidx.
  destruct (lookup_lt_is_Some_2 ms midx) as [m Hm]; [lia|].
  destruct (Hall midx m Hm) as (ph & v & k & g & d & f & Hph & Hrow & _).
  by exists ph, v, k, g, d, f.
Qed.

(** ** The orchestrator *)

(** X11. When [velocities_from_rock] returns, its six arrays
    [(rho, Vp, Vs, Vphi, K, G)] all have the length of [pressures], and the
    three velocities are the source's formulas of the returned [K], [G] and
    [rho] at every index. *)
Theorem velocities_from_rock_consistent {M} `{Mineral M} `{Composite M}
    (garbage : float) (rock : composite M) (pressures temperatures : array)
    (scheme : averaging_scheme)
    (bulk_rho mat_vp mat_vs mat_vphi bulk_K bulk_G : array) :
  velocities_from_rock garbage rock pressures temperatures scheme =
    Ok (bulk_rho, mat_vp, mat_vs, mat_vphi, bulk_K, bulk_G) ->
  Forall (fun a : array => length a = length pressures)
    [bulk_rho; mat_vp; mat_vs; mat_vphi; bulk_K; bulk_G] /\
  forall i k g r,
    bulk_K !! i = Some k -> bulk_G !! i = Some g -> bulk_rho !! i = Some r ->
    mat_vs !! i = Some (fsqrt (g / r)) /\
    mat_vp !! i = Some (fsqrt ((k + Fin 4 / Fin 3 * g) / r)) /\
    mat_vphi !! i = Some (fsqrt (k / r)).
Proof.
  intros Hrun. unfold velocities_from_rock in Hrun.
  apply bind_Ok in Hrun as ([rock' ms] & Hcalc & Hrun).
  apply bind_Ok in Hrun as (res & Havg & Hrun).
  apply bind_Ok in Hrun as ([[vp vs] vphi] & Hvel & Hrun).
  injection Hrun as <- <- <- <- <- <-.
  destruct (calculate_moduli_sized garbage rock rock' pressures temperatures
              ms Hcalc) as [_ Hms].
  destruct (average_moduli_sized garbage ms scheme res Havg)
    as (m0 & Hm0 & Hres).
  pose proof (Forall_lookup_1 _ _ _ _ Hms Hm0) as (HV & _).
  rewrite HV in Hres.
  destruct (compute_velocities_formula garbage res (length pressures) Hres)
    as (vp' & vs' & vphi' & Hvel' & Hvp & Hvs & Hvphi & Hval).
  rewrite Hvel in Hvel'. injection Hvel' as <- <- <-.
  destruct Hres as (_ & Hrho & HK & HG & _).
  split; [by repeat constructor | exact Hval].
Qed.

(** The hypothesis of [velocities_from_rock_consistent] at
    [two_phase_rock] under the Voigt scheme. *)
Lemma velocities_from_rock_consistent_witness :
  exists bulk_rho mat_vp mat_vs mat_vphi bulk_K bulk_G,
    velocities_from_rock NaN two_phase_rock [Fin 25e9] [Fin 2000] voigt =
      Ok (bulk_rho, mat_vp, mat_vs, mat_vphi, bulk_K, bulk_G) /\
    length mat_vp = 1.
Proof.
  assert (Hcalc :
    calculate_moduli NaN two_phase_rock [Fin 25e9] [Fin 2000] =
      Ok (two_phase_rock, two_phase_moduli)).
  { apply (calculate_moduli_two_phases NaN
             (mk_frozen 1e-5 (4000 * 1e-5) 200e9 100e9)
             (mk_frozen 2e-5 (3000 * 2e-5) 100e9 50e9) (Fin 25e9) (Fin 2000)
             0.5 0.5 1e-5 2e-5 (4000 * 1e-5) (3000 * 2e-5)
             200e9 100e9 100e9 50e9);
      [reflexivity | repeat split | repeat split | lra | lra]. }
  assert (Hrun : exists out,
    velocities_from_rock NaN two_phase_rock [Fin 25e9] [Fin 2000] voigt =
      Ok out).
  { unfold velocities_from_rock. rewrite Hcalc. by eexists. }
  destruct Hrun as ([[[[[bulk_rho mat_vp] mat_vs] mat_vphi] bulk_K] bulk_G]
                    & Hrun).
  exists bulk_rho, mat_vp, mat_vs, mat_vphi, bulk_K, bulk_G.
  split; [exact Hrun|].
  destruct (velocities_from_rock_consistent NaN two_phase_rock
              [Fin 25e9] [Fin 2000] voigt _ _ _ _ _ _ Hrun) as [Hlen _].
  apply Forall_cons in Hlen as [_ Hlen].
  apply Forall_cons in Hlen as [Hvp _]. exact Hvp.
Defined.

Lemma set_states_returns {M} `{Composite M} (rock : composite M)
    (pressures temperatures : array) (n : nat) :
  n <= length pressures -> n <= length temperatures ->
  (forall r p t, returns (set_state r p t)) ->
  returns (set_states rock pressures temperatures n).
Proof.
  intros Hp Ht Hset. unfold set_states, for_range.
  destruct (for_loop_total (fun _ _ => True)
              (fun idx r => p ← getitem pressures idx;
                            t ← getitem temperatures idx;
                            set_state r p t) n 0 rock) as (r & Hr & _);
    [done | | by exists r].
  intros i r [_ Hi] _. simpl in Hi.
  destruct (getitem_lt pressures i) as (p & -> & _); [lia|].
  destruct (getitem_lt temperatures i) as (t & -> & _); [lia|].
  simpl. destruct (Hset r p t) as [r' ->]. by exists r'.
Qed.

(** X12. On a rock without phases (with enough temperatures and a
    [set_state] that returns) [velocities_from_rock] raises [IndexError]:
    [calculate_moduli] returns the empty list and [average_moduli] reads
    [moduli_list[0]]. *)
Theorem velocities_from_rock_no_phases {M} `{Mineral M} `{Composite M}
    (garbage : float) (rock : composite M) (pressures temperatures : array)
    (scheme : averaging_scheme) :
  phases rock = [] ->
  length pressures <= length temperatures ->
  (forall r p t, returns (set_state r p t)) ->
  velocities_from_rock garbage rock pressures temperatures scheme =
    Raise IndexError.
Proof.
  intros Hph Hlen Hset.
  destruct (calculate_moduli_total garbage rock pressures temperatures)
    as [[rock' ms] Hcalc].
  { intros idx Hidx.
    destruct (set_states_returns rock pressures temperatures (S idx))
      as [r Hr]; [lia | lia | assumption |].
    exists r. split; [assumption|]. rewrite Hph. simpl. intros midx ?. lia. }
  destruct (calculate_moduli_sized garbage rock rock' pressures temperatures
              ms Hcalc) as [Hms _].
  rewrite Hph in Hms. destruct ms; [|discriminate].
  unfold velocities_from_rock. by rewrite Hcalc.
Qed.

(** The hypotheses of [velocities_from_rock_no_phases] at [empty_rock]. *)
Lemma velocities_from_rock_no_phases_witness :
  velocities_from_rock NaN empty_rock [Fin 25e9] [Fin 2000] voigt =
    Raise IndexError.
Proof.
  apply (velocities_from_rock_no_phases NaN empty_rock [Fin 25e9] [Fin 2000]
           voigt).
  - reflexivity.
  - simpl. lia.
  - intros r p t. exists r. reflexivity.
Defined.

(** ** Volume fractions at the edges *)

(** [average_moduli] from its rows: when every row can be computed the
    call returns the record of these rows. *)
Lemma average_moduli_from_rows (garbage : float)
    (ms : list elastic_properties) (scheme : averaging_scheme)
    (m0 : elastic_properties) :
  ms !! 0 = Some m0 ->
  (forall i, i < length (V m0) -> returns (average_row ms scheme i)) ->
  exists res,
    average_moduli garbage ms scheme = Ok res /\
    forall i, i < length (V m0) ->
      exists v k g d,
        average_row ms scheme i = Ok (v, k, g, d) /\
        V res !! i = Some v /\ K res !! i = Some k /\ G res !! i = Some g /\
        rho res !! i = Some d /\ fraction res !! i = Some (Fin 1).
Proof.
  intros Hm0 Hrows. set (n := length (V m0)) in *.
  pose (Inv := fun (i : nat) (res : elastic_properties) =>
    sized n res /\
    forall j, j < i ->
      exists v k g d,
        average_row ms scheme j = Ok (v, k, g, d) /\
        V res !! j = Some v /\ K res !! j = Some k /\ G res !! j = Some g /\
        rho res !! j = Some d /\ fraction res !! j = Some (Fin 1)).
  destruct (for_loop_total Inv (average_point ms scheme) n 0
              (set_size garbage n)) as (res & Hrun & _ & Hfacts).
  - split; [apply sized_set_size | intros; lia].
  - intros i t [_ Hi] [Ht Hprev]. simpl in Hi.
    destruct (Hrows i Hi) as [[[[v k] g] d] Hrow].
    rewrite (average_point_row ms scheme n i t Ht Hi), Hrow. simpl.
    eexists. split; [reflexivity|].
    split; [by apply write_row_sized|].
    pose proof Ht as (HV & Hrho & HK & HG & Hfr).
    intros j Hj. destruct (decide (j = i)) as [->|Hji].
    + exists v, k, g, d. simpl. rewrite !list_lookup_insert_eq by lia. auto 10.
    + destruct (Hprev j) as (v' & k' & g' & d' & Hr' & Hl); [lia|].
      exists v', k', g', d'. simpl. rewrite !list_lookup_insert_ne by lia.
      auto.
  - exists res. unfold average_moduli, getitem. rewrite Hm0. simpl.
    split; [exact Hrun | exact Hfacts].
Qed.

(** The row of evaluation point [i] on well-sized records. *)
Lemma average_row_sized (ms : list elastic_properties)
    (scheme : averaging_scheme) (n i : nat) :
  Forall (sized n) ms -> i < n ->
  let V_mol := molar_volumes (at_point V ms i) (at_point fraction ms i) in
  let V_frac := volume_fractions V_mol in
  average_row ms scheme i =
    k ← average_bulk_moduli scheme V_frac (at_point K ms i) (at_point G ms i);
    g ← average_shear_moduli scheme V_frac (at_point K ms i) (at_point G ms i);
    d ← average_density scheme V_frac (at_point rho ms i);
    Ok (py_sum V_mol, k, g, d).
Proof.
  intros Hms Hi. unfold average_row.
  destruct (column_at_point fraction ms i) as [-> _].
  { apply (sized_Forall_lt fraction n); [by intros m (_&_&_&_&?) | done | done]. }
  destruct (column_at_point V ms i) as [-> _].
  { apply (sized_Forall_lt V n); [by intros m (?&_) | done | done]. }
  destruct (column_at_point K ms i) as [-> _].
  { apply (sized_Forall_lt K n); [by intros m (_&_&?&_) | done | done]. }
  destruct (column_at_point G ms i) as [-> _].
  { apply (sized_Forall_lt G n); [by intros m (_&_&_&?&_) | done | done]. }
  destruct (column_at_point rho ms i) as [-> _].
  { apply (sized_Forall_lt rho n); [by intros m (_&?&_) | done | done]. }
  reflexivity.
Qed.

Lemma average_row_returns (ms : list elastic_properties)
    (scheme : averaging_scheme) (n i : nat) :
  Forall (sized n) ms -> i < n -> scheme_returns scheme ->
  returns (average_row ms scheme i).
Proof.
  intros Hms Hi (Hbulk & Hshear & Hdens).
  rewrite (average_row_sized ms scheme n i Hms Hi).
  destruct (Hbulk (volume_fractions
                     (molar_volumes (at_point V ms i) (at_point fraction ms i)))
              (at_point K ms i) (at_point G ms i)) as [k ->].
  destruct (Hshear (volume_fractions
                      (molar_volumes (at_point V ms i) (at_point fraction ms i)))
              (at_point K ms i) (at_point G ms i)) as [g ->].
  destruct (Hdens (volume_fractions
                     (molar_volumes (at_point V ms i) (at_point fraction ms i)))
              (at_point rho ms i)) as [d ->].
  by eexists.
Qed.

Lemma at_point_singleton (field : elastic_properties -> array)
    (m : elastic_properties) (i : nat) (x : float) :
  field m !! i = Some x -> at_point field [m] i = [x].
Proof. intros Hx. unfold at_point. simpl. by rewrite Hx. Qed.

(** X13. A single phase gets the volume fraction [1.0]: on one record
    whose [V * fraction] is finite and not zero at every index,
    [average_moduli] calls the scheme with [V_frac = [1.0]] and the phase's
    own [K], [G] and [rho], and stores [V * fraction] as the bulk volume. *)
Theorem single_phase_unit_fraction (garbage : float) (m : elastic_properties)
    (scheme : averaging_scheme) (n : nat) :
  sized n m ->
  scheme_returns scheme ->
  (forall i, i < n -> exists v f : R,
     V m !! i = Some (Fin v) /\ fraction m !! i = Some (Fin f) /\
     (v * f <> 0)%R) ->
  exists res,
    average_moduli garbage [m] scheme = Ok res /\
    forall i, i < n ->
      exists (v f : R) (k_ph g_ph rho_ph k g d : float),
        V m !! i = Some (Fin v) /\ fraction m !! i = Some (Fin f) /\
        K m !! i = Some k_ph /\ G m !! i = Some g_ph /\
        rho m !! i = Some rho_ph /\
        V res !! i = Some (Fin (v * f)) /\
        average_bulk_moduli scheme [Fin 1] [k_ph] [g_ph] = Ok k /\
        K res !! i = Some k /\
        average_shear_moduli scheme [Fin 1] [k_ph] [g_ph] = Ok g /\
        G res !! i = Some g /\
        average_density scheme [Fin 1] [rho_ph] = Ok d /\
        rho res !! i = Some d.
Proof.
  intros Hsz Hs Hvol. pose proof Hsz as (HV & Hrho & HK & HG & Hfr).
  assert (Hms : Forall (sized n) [m]) by (by constructor).
  destruct (average_moduli_from_rows garbage [m] scheme m)
    as (res & Hrun & Hfacts); [reflexivity | |].
  { intros i Hi. apply (average_row_returns [m] scheme n); [done | lia | done]. }
  exists res. split; [assumption|]. intros i Hi.
  destruct (Hvol i Hi) as (v & f & Hv & Hf & Hne).
  destruct (lookup_lt_is_Some_2 (K m) i) as [k_ph Hk]; [lia|].
  destruct (lookup_lt_is_Some_2 (G m) i) as [g_ph Hg]; [lia|].
  destruct (lookup_lt_is_Some_2 (rho m) i) as [rho_ph Hr]; [lia|].
  destruct (Hfacts i) as (v' & k & g & d & Hrow & HVr & HKr & HGr & Hrr & _);
    [lia|].
  rewrite (average_row_sized [m] scheme n i Hms Hi) in Hrow.
  rewrite (at_point_singleton V m i _ Hv), (at_point_singleton fraction m i _ Hf),
    (at_point_singleton K m i _ Hk), (at_point_singleton G m i _ Hg),
    (at_point_singleton rho m i _ Hr) in Hrow.
  assert (Hfrac : volume_fractions (molar_volumes [Fin v] [Fin f]) = [Fin 1]).
  { unfold volume_fractions, molar_volumes, py_sum. simpl.
    rewrite Rplus_0_l, fdiv_Fin by exact Hne. do 2 f_equal.
    unfold Rdiv. by apply Rinv_r. }
  rewrite Hfrac in Hrow.
  apply bind_Ok in Hrow as (k' & Hk' & Hrow).
  apply bind_Ok in Hrow as (g' & Hg' & Hrow).
  apply bind_Ok in Hrow as (d' & Hd' & Hrow).
  injection Hrow as <- <- <- <-.
  exists v, f, k_ph, g_ph, rho_ph, k', g', d'.
  repeat (split; [assumption|]).
  split; [|by repeat (split; [assumption|])].
  rewrite HVr. unfold molar_volumes, py_sum. simpl. do 2 f_equal. lra.
Qed.

(** The hypotheses of [single_phase_unit_fraction] at the first phase of
    the worked rock under the Voigt scheme. *)
Lemma single_phase_unit_fraction_witness :
  exists res,
    average_moduli NaN
      [ {| V := [Fin 1e-5]; rho := [Fin 4000]; K := [Fin 200e9];
           G := [Fin 100e9]; fraction := [Fin 1] |} ] voigt = Ok res.
Proof.
  destruct (single_phase_unit_fraction NaN
              {| V := [Fin 1e-5]; rho := [Fin 4000]; K := [Fin 200e9];
                 G := [Fin 100e9]; fraction := [Fin 1] |} voigt 1)
    as (res & Hrun & _).
  - by repeat split.
  - repeat split; intros; by eexists.
  - intros i Hi. exists 1e-5%R, 1%R. destruct i; [|lia].
    repeat split. lra.
  - by exists res.
Defined.

Lemma at_point_cons (field : elastic_properties -> array)
    (m : elastic_properties) (ms : list elastic_properties) (i : nat)
    (x : float) :
  field m !! i = Some x -> at_point field (m :: ms) i = x :: at_point field ms i.
Proof. intros Hx. unfold at_point. simpl. by rewrite Hx. Qed.

Lemma zero_molar_volumes (ms : list elastic_properties) (i : nat) :
  (forall m, m ∈ ms -> exists v : R,
     V m !! i = Some (Fin v) /\ fraction m !! i = Some (Fin 0)) ->
  exists zs,
    molar_volumes (at_point V ms i) (at_point fraction ms i) = Fin <$> zs /\
    Forall (fun z => z = 0%R) zs /\ length zs = length ms.
Proof.
  induction ms as [|m ms IH]; intros Hall.
  - exists []. by repeat split.
  - destruct (Hall m) as (v & Hv & Hf); [by left|].
    destruct IH as (zs & Hzs & Hzero & Hlen).
    { intros m' Hm'. apply Hall. by right. }
    exists ((v * 0)%R :: zs).
    rewrite (at_point_cons V m ms i _ Hv), (at_point_cons fraction m ms i _ Hf).
    change (molar_volumes (Fin v :: at_point V ms i)
              (Fin 0 :: at_point fraction ms i))
      with (Fin (v * 0) ::
              molar_volumes (at_point V ms i) (at_point fraction ms i)).
    rewrite Hzs. split; [reflexivity|].
    split; [constructor; [lra | assumption] | simpl; by f_equal].
Qed.

Lemma Rsum_zero (zs : list R) : Forall (fun z => z = 0%R) zs -> Rsum zs = 0%R.
Proof.
  induction 1 as [|z zs Hz _ IH]; [reflexivity|].
  change (z + Rsum zs = 0)%R. lra.
Qed.

Lemma divide_zeros (zs : list R) :
  Forall (fun z => z = 0%R) zs ->
  map (fun v => (v / Fin 0)%fl) (Fin <$> zs) = replicate (length zs) NaN.
Proof.
  induction 1 as [|z zs Hz _ IH]; [reflexivity|].
  change ((Fin z / Fin 0)%fl :: map (fun v => (v / Fin 0)%fl) (Fin <$> zs) =
          NaN :: replicate (length zs) NaN).
  by rewrite IH, fdiv_Fin_zero_zero.
Qed.

Lemma volume_fractions_zero (zs : list R) :
  Forall (fun z => z = 0%R) zs ->
  py_sum (Fin <$> zs) = Fin 0 /\
  volume_fractions (Fin <$> zs) = replicate (length zs) NaN.
Proof.
  intros Hzs.
  assert (Hsum : py_sum (Fin <$> zs) = Fin 0).
  { unfold py_sum. rewrite foldl_fadd_Fin, (Rsum_zero zs Hzs). f_equal. lra. }
  split; [exact Hsum|].
  unfold volume_fractions. rewrite Hsum. by apply divide_zeros.
Qed.

(** X14. A total volume of zero is not an error.  At an evaluation point
    where every phase has fraction [0] (and a finite [V]),
    [sum(V_mol)] is [0], every volume fraction is [0/0 = NaN], and
    [average_moduli] still returns: the scheme is called with NaN volume
    fractions and the bulk volume stored is [0]. *)
Theorem zero_total_volume (garbage : float) (ms : list elastic_properties)
    (scheme : averaging_scheme) (n i : nat) :
  ms <> [] -> Forall (sized n) ms -> scheme_returns scheme -> i < n ->
  (forall m, m ∈ ms -> exists v : R,
     V m !! i = Some (Fin v) /\ fraction m !! i = Some (Fin 0)) ->
  exists res k g d,
    average_moduli garbage ms scheme = Ok res /\
    V res !! i = Some (Fin 0) /\
    average_bulk_moduli scheme (replicate (length ms) NaN)
      (at_point K ms i) (at_point G ms i) = Ok k /\
    K res !! i = Some k /\
    average_shear_moduli scheme (replicate (length ms) NaN)
      (at_point K ms i) (at_point G ms i) = Ok g /\
    G res !! i = Some g /\
    average_density scheme (replicate (length ms) NaN) (at_point rho ms i)
      = Ok d /\
    rho res !! i = Some d.
Proof.
  intros Hne Hms Hs Hi Hzero.
  destruct ms as [|m0 ms']; [done|]. set (ms := m0 :: ms') in *.
  assert (Hn : length (V m0) = n).
  { apply Forall_cons in Hms as [(? & _) _]. assumption. }
  destruct (average_moduli_from_rows garbage ms scheme m0)
    as (res & Hrun & Hfacts); [reflexivity | |].
  { intros j Hj. apply (average_row_returns ms scheme n); [done | lia | done]. }
  destruct (Hfacts i) as (v & k & g & d & Hrow & HV & HK & HG & Hrho & _);
    [lia|].
  rewrite (average_row_sized ms scheme n i Hms Hi) in Hrow.
  destruct (zero_molar_volumes ms i Hzero) as (zs & Hzs & Hz & Hlen).
  rewrite Hzs in Hrow.
  destruct (volume_fractions_zero zs Hz) as [Hsum Hfrac].
  rewrite Hfrac, Hsum, Hlen in Hrow.
  apply bind_Ok in Hrow as (k' & Hk' & Hrow).
  apply bind_Ok in Hrow as (g' & Hg' & Hrow).
  apply bind_Ok in Hrow as (d' & Hd' & Hrow).
  injection Hrow as <- <- <- <-.
  exists res, k', g', d'. auto 10.
Qed.

(** The hypotheses of [zero_total_volume] at [zero_fraction_moduli] under
    the Voigt scheme. *)
Lemma zero_total_volume_witness :
  exists res,
    average_moduli NaN zero_fraction_moduli voigt = Ok res /\
    V res !! 0 = Some (Fin 0).
Proof.
  destruct (zero_total_volume NaN zero_fraction_moduli voigt 1 0)
    as (res & k & g & d & Hrun & HV & _).
  - discriminate.
  - repeat constructor.
  - repeat split; intros; by eexists.
  - lia.
  - intros m Hm. apply list_elem_of_In in Hm.
    destruct Hm as [<-|[<-|[]]]; eexists; split; reflexivity.
  - exists res. by split.
Defined.

(** ** A correction that changes nothing *)

Lemma take_insert_next {A} (a b : list A) (i : nat) (x : A) :
  i < length a -> take i a = take i b -> b !! i = Some x ->
  take (S i) (<[i:=x]> a) = take (S i) b.
Proof.
  intros Hi Hab Hx.
  rewrite (take_S_r (<[i:=x]> a) i x) by (by apply list_lookup_insert_eq).
  rewrite take_insert_ge by lia. by rewrite (take_S_r b i x), Hab.
Qed.

(** X15. A correction function that leaves the velocities of every
    evaluation point as they are makes [apply_attenuation_correction]
    return its inputs: [v_p] itself, and [v_s] and [v_phi] up to
    [len(v_p)] (the whole arrays when the three lengths are equal). *)
Theorem attenuation_correction_unchanged (correction : attenuation_model)
    (v_p v_s v_phi : array) (Qs Qphi : float) :
  length v_p <= length v_s -> length v_p <= length v_phi ->
  (forall i p s phi,
     v_p !! i = Some p -> v_s !! i = Some s -> v_phi !! i = Some phi ->
     correction p s phi Qs Qphi = Ok (p, s, phi)) ->
  apply_attenuation_correction correction v_p v_s v_phi Qs Qphi =
    Ok (v_p, take (length v_p) v_s, take (length v_p) v_phi) /\
  (length v_s = length v_p -> length v_phi = length v_p ->
   apply_attenuation_correction correction v_p v_s v_phi Qs Qphi =
     Ok (v_p, v_s, v_phi)).
Proof.
  intros Hs Hphi Hfix. set (n := length v_p).
  assert (Hrun :
    apply_attenuation_correction correction v_p v_s v_phi Qs Qphi =
      Ok (v_p, take n v_s, take n v_phi)).
  { pose (Inv := fun (i : nat) (st : array * array * array) =>
      (length st.1.1 = n /\ length st.1.2 = n /\ length st.2 = n) /\
      take i st.1.1 = take i v_p /\ take i st.1.2 = take i v_s /\
      take i st.2 = take i v_phi).
    destruct (for_loop_total Inv
                (attenuation_point correction v_p v_s v_phi Qs Qphi) n 0
                (np_zeros n, np_zeros n, np_zeros n))
      as ([[rp rs] rphi] & Hloop & (Hlp & Hls & Hlphi) & Hp & Hs' & Hphi').
    - split; [repeat split; apply length_np_zeros | by repeat split].
    - intros i [[rp rs] rphi] [_ Hi] [(Hlp & Hls & Hlphi) (Hp & Hs' & Hphi')].
      simpl in *.
      destruct (lookup_lt_is_Some_2 v_p i) as [p Hpi]; [lia|].
      destruct (lookup_lt_is_Some_2 v_s i) as [s Hsi]; [lia|].
      destruct (lookup_lt_is_Some_2 v_phi i) as [phi Hphii]; [lia|].
      pose proof (Hfix i p s phi Hpi Hsi Hphii) as Hcorr.
      eexists. split.
      { apply (attenuation_point_step correction v_p v_s v_phi Qs Qphi i
                 rp rs rphi p s phi p s phi); try assumption; lia. }
      split; [simpl; by rewrite !length_insert|].
      simpl. repeat split; apply take_insert_next; try assumption; lia.
    - simpl in *. unfold apply_attenuation_correction, for_range. fold n.
      rewrite Hloop. do 2 f_equal; [f_equal|].
      + rewrite <- (take_ge rp n), <- (take_ge v_p n) by lia. exact Hp.
      + rewrite <- (take_ge rs n) by lia. exact Hs'.
      + rewrite <- (take_ge rphi n) by lia. exact Hphi'. }
  split; [exact Hrun|].
  intros Es Ephi. rewrite Hrun. by rewrite !take_ge by lia.
Qed.

(** The hypotheses of [attenuation_correction_unchanged] at
    [no_attenuation]. *)
Lemma attenuation_correction_unchanged_witness :
  apply_attenuation_correction no_attenuation
    [Fin 8000; Fin 8100] [Fin 4500; Fin 4600] [Fin 6000; Fin 6100]
    (Fin 300) (Fin 1000) =
    Ok ([Fin 8000; Fin 8100], [Fin 4500; Fin 4600], [Fin 6000; Fin 6100]).
Proof.
  apply (attenuation_correction_unchanged no_attenuation
           [Fin 8000; Fin 8100] [Fin 4500; Fin 4600] [Fin 6000; Fin 6100]
           (Fin 300) (Fin 1000)); try (simpl; lia); try reflexivity.
Defined.
